(** * SemanticDocumentParser: a shallow embedding of the chunk-reshaping pipeline

    The development follows the Python package file by file:

    - [metadata_parser.py]   hyperlink inlining and metadata scrubbing,
    - [semantic_splitter.py] grouping by Title and semantic splitting,
    - [list_parser.py]       consolidation of runs of list items,
    - [semantic_tables.py]   LLM driven expansion of tables,
    - [parser.py]            the [aparse] orchestrator.

    Python [str] values are modelled by [string]: a finite sequence of
    characters with concatenation, length and slicing.  Python [int] values
    that may be negative are modelled by [Z], lengths and loop indices by
    [nat].  Library capabilities the package calls but does not define
    ([json.loads], [re.sub], [textwrap.dedent], [traceback.format_exc],
    [time.time], [partition], the LLM and the node parser) are taken as
    parameters. *)

From Stdlib Require Import List String Ascii ZArith Lia Bool Arith DecimalString.
From Stdlib.Strings Require Byte.
Import ListNotations.

Set Warnings "-register-all".

Open Scope string_scope.
Open Scope list_scope.

(** Python's [+] on strings.  [++] is kept for lists. *)
Infix "+++" := String.append (right associativity, at level 60).

(* ================================================================== *)
(** * Python strings *)
(* ================================================================== *)

Module PyStr.

(** The one-character string written with a backslash and an n in Python. *)
Definition LF : string := String (ascii_of_nat 10) EmptyString.

(** [str(n)] for a non-negative integer. *)
Definition of_nat (n : nat) : string := NilEmpty.string_of_uint (Nat.to_uint n).

(** [sep.join(parts)] *)
Definition join (sep : string) (parts : list string) : string :=
  String.concat sep parts.

(** The first [n] characters, all of them when [n] exceeds the length. *)
Fixpoint take (n : nat) (s : string) : string :=
  match n, s with
  | O, _ => EmptyString
  | S _, EmptyString => EmptyString
  | S n', String c s' => String c (take n' s')
  end.

(** What is left after the first [n] characters. *)
Fixpoint drop (n : nat) (s : string) : string :=
  match n, s with
  | O, _ => s
  | S _, EmptyString => EmptyString
  | S n', String _ s' => drop n' s'
  end.

(** How Python turns a slice bound into a position of a sequence of
    length [len]: a negative bound counts from the end, and every bound
    is clamped into [0 .. len]. *)
Definition slice_bound (len : nat) (i : Z) : nat :=
  if (i <? 0)%Z
  then Z.to_nat (Z.max 0 (Z.of_nat len + i))
  else Nat.min len (Z.to_nat i).

(** [s[:i]] *)
Definition slice_to (s : string) (i : Z) : string :=
  take (slice_bound (String.length s) i) s.

(** [s[i:]] *)
Definition slice_from (s : string) (i : Z) : string :=
  drop (slice_bound (String.length s) i) s.

(** [len(s)] as a Python int. *)
Definition len (s : string) : Z := Z.of_nat (String.length s).

End PyStr.

(** [enumerate(l)] counted from [start]. *)
Fixpoint enumerate_from {A : Type} (start : nat) (l : list A) : list (nat * A) :=
  match l with
  | [] => []
  | x :: l' => (start, x) :: enumerate_from (S start) l'
  end.

Definition enumerate {A : Type} (l : list A) : list (nat * A) := enumerate_from 0 l.

(* ================================================================== *)
(** * Document elements (unstructured.documents.elements) *)
(* ================================================================== *)

(** The classes the package dispatches on with [isinstance].  They are
    siblings under [Text], so an element is an instance of at most one of
    them, and one tag per element is enough: the tag is that class, also for
    an instance of one of its subclasses, and [OtherElement] for an element
    that is an instance of none of the five. *)
Inductive ElementKind : Type :=
| Title | NarrativeText | ListItem | Table | PageBreak | OtherElement.

Definition ElementKind_eqb (a b : ElementKind) : bool :=
  match a, b with
  | Title, Title | NarrativeText, NarrativeText | ListItem, ListItem
  | Table, Table | PageBreak, PageBreak | OtherElement, OtherElement => true
  | _, _ => false
  end.

(** One entry of [metadata.links]: a dict with the keys [start_index],
    [text] and [url]. *)
Record Link : Type := mkLink {
  start_index : Z;
  link_text : string;
  url : string
}.

(** The fields of [ElementMetadata] the package reads or writes.  [None] is
    Python's [None]. *)
Record ElementMetadata : Type := mkMetadata {
  links : option (list Link);
  link_texts : option (list string);
  link_urls : option (list string);
  parent_id : option string;
  category_depth : option Z;
  filetype : option string;
  languages : option (list string);
  page_number : option Z;
  text_as_html : option string
}.

(** [ElementMetadata()] *)
Definition empty_metadata : ElementMetadata :=
  mkMetadata None None None None None None None None None.

Record Element : Type := mkElement {
  kind : ElementKind;
  text : string;
  metadata : ElementMetadata
}.

(** [isinstance(element, K)] *)
Definition isinstance (element : Element) (k : ElementKind) : bool :=
  ElementKind_eqb (kind element) k.

(** [isinstance(x, K)] for an [Optional[Element]]: [None] is no instance. *)
Definition isinstance_opt (x : option Element) (k : ElementKind) : bool :=
  match x with
  | Some element => isinstance element k
  | None => false
  end.

(** Elements with default metadata, as [Title(text=...)] and the like build
    them. *)
Definition title_of (s : string) : Element := mkElement Title s empty_metadata.
Definition narrative_of (s : string) : Element := mkElement NarrativeText s empty_metadata.
Definition list_item_of (s : string) : Element := mkElement ListItem s empty_metadata.
Definition page_break : Element := mkElement PageBreak EmptyString empty_metadata.

(** A NarrativeText that inherits the metadata of [table]. *)
Definition narrative_of_table (table : Element) (s : string) : Element :=
  mkElement NarrativeText s (metadata table).

(** A table whose metadata carries the HTML rendering [html]. *)
Definition table_of (s html : string) : Element :=
  mkElement Table s
    (mkMetadata None None None None None None None None (Some html)).

(* ================================================================== *)
(** * Values, exceptions and effects of the Python runtime *)
(* ================================================================== *)

(** What [json.loads] can return. *)
Inductive JSON : Type :=
| JNull
| JBool (b : bool)
| JInt (n : Z)
| JFloat (literal : string)
| JString (s : string)
| JArray (items : list JSON)
| JObject (members : list (string * JSON)).

(** The exceptions that occur in the modelled code.  [JSONDecodeError] is a
    subclass of [ValueError]; [ValueError] below stands for a [ValueError]
    that is no [JSONDecodeError], which [except JSONDecodeError] does not
    handle. *)
Inductive PyExn : Type :=
| JSONDecodeError | IndexError | KeyError | TypeError | RecursionError | ValueError.

(** A Python evaluation either returns a value or raises. *)
Inductive Outcome (A : Type) : Type :=
| Return (a : A)
| Raise (e : PyExn).
Arguments Return {A} a.
Arguments Raise {A} e.

(** The stages [aparse] runs after partitioning. *)
Inductive Stage : Type :=
| MetadataStage | SplitterStage | ListStage | TableStage.

(** What the code does to the outside world: it reads the clock, it writes
    to the [logging] module, and (a ghost field, for stating which stages
    ran) it enters pipeline stages. *)
Record World : Type := mkWorld {
  clock_reads : nat;
  stages_entered : list Stage;
  error_log : list string
}.

Definition initial_world : World := mkWorld 0 [] [].

(** Computations with effects and exceptions.  The world is kept when an
    exception is raised: what was logged stays logged. *)
Definition Py (A : Type) : Type := World -> Outcome A * World.

Definition ret {A : Type} (a : A) : Py A := fun w => (Return a, w).

Definition raise {A : Type} (e : PyExn) : Py A := fun w => (Raise e, w).

Definition bind {A B : Type} (c : Py A) (k : A -> Py B) : Py B :=
  fun w =>
    match c w with
    | (Return a, w') => k a w'
    | (Raise e, w') => (Raise e, w')
    end.

Notation "x <- c ;; k" := (bind c (fun x => k))
  (at level 61, c at next level, right associativity).
Notation "c ;;; k" := (bind c (fun _ => k))
  (at level 61, right associativity).

(** A pure evaluation that may raise, as a computation. *)
Definition lift {A : Type} (o : Outcome A) : Py A := fun w => (o, w).

(** [await asyncio.gather] over the tasks: the results in task order when
    every task returns, and an exception as soon as one task raises.  The
    model runs the tasks one after the other, so of several failing tasks it
    reports the first in task order, where asyncio reports the first to fail
    in time.  The statements below name the exception only where one task
    alone can raise. *)
Fixpoint gather {A : Type} (tasks : list (Py A)) : Py (list A) :=
  match tasks with
  | [] => ret []
  | task :: tasks' =>
      r <- task ;;
      rs <- gather tasks' ;;
      ret (r :: rs)
  end.

(** [logging.error(msg)] *)
Definition logging_error (msg : string) : Py unit :=
  fun w => (Return tt, mkWorld (clock_reads w) (stages_entered w) (error_log w ++ [msg])).

(** Ghost: record that a stage is entered. *)
Definition enter_stage (s : Stage) : Py unit :=
  fun w => (Return tt, mkWorld (clock_reads w) (stages_entered w ++ [s]) (error_log w)).

(** A computation that neither reads the clock nor enters a stage. *)
Definition keeps_clock_and_stages {A : Type} (c : Py A) : Prop :=
  forall w,
    clock_reads (snd (c w)) = clock_reads w
    /\ stages_entered (snd (c w)) = stages_entered w.

(** One message of a chat: [ChatMessage(role=..., content=...)]. *)
Record ChatMessage : Type := mkChatMessage {
  role : string;
  content : option string
}.

(** The LLM, by what [llm.achat(messages)] answers in
    [response.message.content], a [str].  Each prompt of each table is sent
    once; the answer is taken to depend on the messages only.  A failure of
    the transport is not modelled. *)
Definition LLM : Type := list ChatMessage -> string.

(** The node parser, by the texts of the nodes that
    [build_semantic_nodes_from_documents] builds from the texts of the
    documents. *)
Definition SemanticSplitterNodeParser : Type := list string -> list string.

(** [io.BytesIO] *)
Definition BytesIO : Type := list Byte.byte.

(** The library functions the package calls.  The two prompt templates are
    constants of semantic_tables.py; their text plays no role in the control
    flow and is kept abstract. *)
Class PyRuntime : Type := {
  (** [json.loads(s)]: the decoded value, or the exception it raises.  On
      most text that is no JSON it raises [JSONDecodeError]; on some it raises
      another exception ([RecursionError] on deep nesting, [ValueError] on an
      integer literal with too many digits). *)
  json_loads : string -> Outcome JSON;
  (** what an f-string prints for a decoded value that is not a [str] *)
  py_repr : JSON -> string;
  (** [traceback.format_exc()] in the handler, for the failing content *)
  traceback_format_exc : string -> string;
  (** [re.sub('<[^<]+?>', '', s)] *)
  re_sub_tags : string -> string;
  (** [textwrap.dedent(s)] *)
  textwrap_dedent : string -> string;
  (** [int(time.time())] at the n-th reading of the clock *)
  time_time : nat -> Z;
  (** [partition(file=document)] *)
  partition : BytesIO -> list Element;
  SemanticUnitsTemplate : ChatMessage;
  SemanticSummaryTemplate : ChatMessage
}.

(** [int(time.time())] *)
Definition now `{PyRuntime} : Py Z :=
  fun w => (Return (time_time (clock_reads w)),
            mkWorld (S (clock_reads w)) (stages_entered w) (error_log w)).

(* ================================================================== *)
(** * metadata_parser.py *)
(* ================================================================== *)

Module MetadataParser.

(** [f" (The link URL is {link['url']})"] *)
Definition new_text (link : Link) : string :=
  " (The link URL is " +++ url link +++ ")".

(** One turn of the loop over the links, on the pair of [element.text] and
    [change_delta]. *)
Definition link_body (st : string * Z) (link : Link) : string * Z :=
  let '(element_text, change_delta) := st in
  let start_index := (start_index link + change_delta)%Z in
  let link_text := link_text link in
  let end_index := (start_index + PyStr.len link_text)%Z in
  let new_text := new_text link in
  (PyStr.slice_to element_text start_index +++ link_text +++ new_text
     +++ PyStr.slice_from element_text end_index,
   (change_delta + PyStr.len new_text)%Z).

(** The three link fields set to [None]. *)
Definition clear_links (m : ElementMetadata) : ElementMetadata :=
  mkMetadata None None None
    (parent_id m) (category_depth m) (filetype m) (languages m) (page_number m)
    (text_as_html m).

(** The element after the in-place rewriting.  The caller guards the call
    with [if element.metadata.links], so [links] is a list here. *)
Definition _parse_element_urls (element : Element) : Element :=
  let the_links := match links (metadata element) with Some l => l | None => [] end in
  let '(new_element_text, _) := fold_left link_body the_links (text element, 0%Z) in
  mkElement (kind element) new_element_text (clear_links (metadata element)).

(** [if element.metadata.links]: neither [None] nor empty. *)
Definition has_links (element : Element) : bool :=
  match links (metadata element) with
  | Some (_ :: _) => true
  | _ => false
  end.

(** The five fields the loop of [metadata_parser] sets to [None]. *)
Definition clear_noise (m : ElementMetadata) : ElementMetadata :=
  mkMetadata (links m) (link_texts m) (link_urls m)
    None None None None None
    (text_as_html m).

(** The body of the loop, on one element. *)
Definition parse_element (element : Element) : Element :=
  let element1 := if has_links element then _parse_element_urls element else element in
  mkElement (kind element1) (text element1) (clear_noise (metadata element1)).

(** The function mutates the elements of the list in place and returns
    nothing; the model returns the list as it is afterwards. *)
Definition metadata_parser (elements : list Element) : list Element :=
  map parse_element elements.

(** A text cut at its links: each segment is a link and the text between
    the end of that link and the next one (or the end).  [original_tail] is
    the text as the links were measured on it, [rewritten_tail] the same text
    with the note of each link right after the link text. *)
Fixpoint original_tail (segments : list (Link * string)) : string :=
  match segments with
  | [] => EmptyString
  | (link, after) :: rest => link_text link +++ after +++ original_tail rest
  end.

Fixpoint rewritten_tail (segments : list (Link * string)) : string :=
  match segments with
  | [] => EmptyString
  | (link, after) :: rest =>
      link_text link +++ new_text link +++ after +++ rewritten_tail rest
  end.

(** Each link starts, in the original text, [offset] characters in, where
    [offset] counts everything before it. *)
Fixpoint placed_from (offset : Z) (segments : list (Link * string)) : Prop :=
  match segments with
  | [] => True
  | (link, after) :: rest =>
      start_index link = offset
      /\ placed_from (offset + PyStr.len (link_text link) + PyStr.len after)%Z rest
  end.

(** An element with the given text and links and no other metadata. *)
Definition linked_text (s : string) (the_links : list Link) : Element :=
  mkElement NarrativeText s
    (mkMetadata (Some the_links) None None None None None None None None).

End MetadataParser.

(* ================================================================== *)
(** * semantic_splitter.py *)
(* ================================================================== *)

Module SemanticSplitter.

Record ElementGroup : Type := mkElementGroup {
  title_node : Element;
  nodes : list Element
}.

(** One turn of the grouping loop, on [element_groups] and
    [current_group].  A group is a dict with two keys, so [if current_group]
    holds exactly when it is not [None]. *)
Definition group_body (st : list ElementGroup * option ElementGroup) (element : Element)
  : list ElementGroup * option ElementGroup :=
  let '(element_groups, current_group) := st in
  if isinstance element Title then
    (match current_group with
     | Some g => element_groups ++ [g]
     | None => element_groups
     end,
     Some (mkElementGroup element []))
  else
    match current_group with
    | Some g => (element_groups, Some (mkElementGroup (title_node g) (nodes g ++ [element])))
    | None => (element_groups, None)
    end.

Definition _create_element_groups (elements : list Element) : list ElementGroup :=
  let '(element_groups, current_group) := fold_left group_body elements ([], None) in
  match current_group with
  | Some g => element_groups ++ [g]
  | None => element_groups
  end.

Definition _semantic_split_node
  (title_node : Element) (node : Element) (node_parser : SemanticSplitterNodeParser)
  : list Element :=
  let llama_nodes := node_parser [text node] in
  map (fun llama_node =>
         mkElement NarrativeText (text title_node +++ PyStr.LF +++ llama_node)
                   (metadata node))
      llama_nodes.

Definition _semantic_split_element_group
  (group : ElementGroup) (node_parser : SemanticSplitterNodeParser) : list Element :=
  fold_left
    (fun nodes node =>
       if negb (isinstance node NarrativeText) then nodes ++ [node]
       else nodes ++ _semantic_split_node (title_node group) node node_parser)
    (nodes group) [].

(** The local [nodes] of [semantic_splitter] when its loop ends. *)
Definition split_nodes (elements : list Element) (node_parser : SemanticSplitterNodeParser)
  : list Element :=
  let element_groups := _create_element_groups elements in
  fold_left
    (fun nodes group => nodes ++ _semantic_split_element_group group node_parser)
    element_groups [].

(** The function builds [nodes] and ends in [return elements]. *)
Definition semantic_splitter
  (elements : list Element) (node_parser : SemanticSplitterNodeParser) : list Element :=
  let nodes := split_nodes elements node_parser in
  elements.

(** A node parser that finds no breakpoint: every document comes back as one
    node.  This is what the capability answers for short paragraphs. *)
Definition whole_text_parser : SemanticSplitterNodeParser :=
  fun documents => documents.

(** The input from its first Title on. *)
Fixpoint after_first_title (elements : list Element) : list Element :=
  match elements with
  | [] => []
  | element :: rest =>
      if isinstance element Title then element :: rest else after_first_title rest
  end.

(** What the grouping loop hands over when it ends in the state [st]. *)
Definition close_groups (st : list ElementGroup * option ElementGroup)
  : list ElementGroup :=
  match snd st with
  | Some g => fst st ++ [g]
  | None => fst st
  end.

(** The elements of the groups, each Title before its nodes. *)
Definition ungroup (groups : list ElementGroup) : list Element :=
  flat_map (fun g => title_node g :: nodes g) groups.

(** A group is anchored by a Title and holds no Title. *)
Definition anchored (g : ElementGroup) : Prop :=
  isinstance (title_node g) Title = true
  /\ Forall (fun node => isinstance node Title = false) (nodes g).

End SemanticSplitter.

(* ================================================================== *)
(** * list_parser.py *)
(* ================================================================== *)

Module ListParser.

(** The header text and two line feeds when there is a header node, else the
    empty string. *)
Definition header_text (header_node : option Element) : string :=
  match header_node with
  | Some h => text h +++ PyStr.LF +++ PyStr.LF
  | None => EmptyString
  end.

(** [f" There were {len(elements)} items."] *)
Definition footer_text (elements : list Element) : string :=
  " There were " +++ PyStr.of_nat (List.length elements) +++ " items.".

(** The node "with everything in it". *)
Definition aggregate_node (elements : list Element) (header_node : option Element)
  : Element :=
  mkElement NarrativeText
    (header_text header_node
       +++ PyStr.join PyStr.LF (map (fun element => "- " +++ text element) elements)
       +++ footer_text elements)
    empty_metadata.

(** The node built for the list item met at position [idx] of [enumerate]. *)
Definition item_node (header_node : option Element) (idx : nat) (element : Element)
  : Element :=
  mkElement NarrativeText
    (header_text header_node
       +++ "List Item #" +++ PyStr.of_nat (idx + 1) +++ "): " +++ text element)
    (metadata element).

Definition _list_group_parser (elements : list Element) (header_node : option Element)
  : list Element :=
  let nodes := [aggregate_node elements header_node] in
  fold_left
    (fun nodes '(idx, element) => nodes ++ [item_node header_node idx element])
    (enumerate elements) nodes.

(** The generator, as the list of what it yields. *)
Definition _iterate_without_page_breaks (elements : list Element) : list Element :=
  filter (fun element => negb (isinstance element PageBreak)) elements.

(** The local variables of [list_parser]'s loop. *)
Record LoopState : Type := mkLoop {
  nodes : list Element;
  header_node : option Element;
  list_group : list Element;
  last_node : option Element
}.

Definition loop_init : LoopState := mkLoop [] None [] None.

(** One turn of the [for] loop. *)
Definition loop_body (st : LoopState) (element : Element) : LoopState :=
  if isinstance element ListItem then
    mkLoop (nodes st)
           (if isinstance_opt (last_node st) NarrativeText
               || isinstance_opt (last_node st) Title
            then last_node st else header_node st)
           (list_group st ++ [element])
           (Some element)
  else
    let nodes1 := nodes st ++ [element] in
    if isinstance_opt (last_node st) ListItem then
      mkLoop (nodes1 ++ _list_group_parser (list_group st) (header_node st))
             None [] (Some element)
    else
      mkLoop nodes1 (header_node st) (list_group st) (Some element).

Definition list_parser (elements : list Element) : list Element :=
  nodes (fold_left loop_body (_iterate_without_page_breaks elements) loop_init).

(** Between runs the loop holds no pending group and no header. *)
Definition settled (st : LoopState) : Prop :=
  isinstance_opt (last_node st) ListItem = false ->
  list_group st = [] /\ header_node st = None.

(** The text of the node of item number [i] as the specification words it:
    the header text, ONE line feed, the label and the item text. *)
Definition item_text_one_line_feed (header : Element) (i : nat) (item : Element)
  : string :=
  text header +++ PyStr.LF +++ "List Item #" +++ PyStr.of_nat i +++ "): " +++ text item.

End ListParser.
(* ================================================================== *)
(** * semantic_tables.py *)
(* ================================================================== *)

Module SemanticTables.

Section WithRuntime.
Context `{PyRuntime}.

(** [isinstance(v, str)] *)
Definition is_str (v : JSON) : bool :=
  match v with
  | JString _ => true
  | _ => false
  end.

(** [v[0]].  A decoded array or string gives its first item, or
    [IndexError] when it is empty; a decoded object has only string keys, so
    the key [0] is missing; the other values are not subscriptable. *)
Definition getitem0 (v : JSON) : Outcome JSON :=
  match v with
  | JArray (first :: _) => Return first
  | JArray [] => Raise IndexError
  | JString (String c _) => Return (JString (String c EmptyString))
  | JString EmptyString => Raise IndexError
  | JObject _ => Raise KeyError
  | JNull | JBool _ | JInt _ | JFloat _ => Raise TypeError
  end.

(** The items a [for] loop over [v] visits. *)
Definition py_iter (v : JSON) : Outcome (list JSON) :=
  match v with
  | JArray items => Return items
  | JString s =>
      Return (map (fun c => JString (String c EmptyString)) (list_ascii_of_string s))
  | JObject members => Return (map (fun kv => JString (fst kv)) members)
  | JNull | JBool _ | JInt _ | JFloat _ => Raise TypeError
  end.

(** What [f"{v}"] prints. *)
Definition py_str (v : JSON) : string :=
  match v with
  | JString s => s
  | _ => py_repr v
  end.

(** The body of the [try] block. *)
Definition parse_try (response : string) : Outcome JSON :=
  match json_loads response with
  | Raise e => Raise e
  | Return element_texts =>
      match getitem0 element_texts with
      | Raise e => Raise e
      | Return first =>
          if negb (is_str first) then Raise JSONDecodeError
          else Return element_texts
      end
  end.

(** The message handed to [logging.error]. *)
Definition parse_failure_message (response : string) : string :=
  "Failed to parse a table! Got invalid reply: "
    +++ response +++ PyStr.LF +++ traceback_format_exc response.

(** [response] is [response.message.content].  Only [JSONDecodeError] is
    handled; any other exception of the [try] block leaves the function. *)
Definition _parse_llm_json_response (response : string) : Py JSON :=
  match parse_try response with
  | Return element_texts => ret element_texts
  | Raise JSONDecodeError =>
      logging_error (parse_failure_message response) ;;;
      ret (JArray [])
  | Raise e => raise e
  end.

(** [ChatMessage(role="user", content=element.metadata.text_as_html)] *)
Definition user_message (element : Element) : ChatMessage :=
  mkChatMessage "user" (text_as_html (metadata element)).

(** The element [_semantic_summarize_table] builds from the answer. *)
Definition summary_element
  (element : Element) (previous_element : option Element) (llm : LLM) : Element :=
  let response := llm [SemanticSummaryTemplate; user_message element] in
  let element_header :=
    match previous_element with
    | Some p => text p +++ PyStr.LF
    | None => EmptyString
    end in
  mkElement NarrativeText (element_header +++ response) (metadata element).

Definition _semantic_summarize_table
  (element : Element) (previous_element : option Element) (llm : LLM) : Py Element :=
  ret (summary_element element previous_element llm).

(** The text of the previous element and two line feeds when there is one,
    else the empty string. *)
Definition unit_header (previous_element : option Element) : string :=
  match previous_element with
  | Some p => text p +++ PyStr.LF +++ PyStr.LF
  | None => EmptyString
  end.

(** The element built for the item met at position [idx] of [enumerate]. *)
Definition unit_element
  (element : Element) (previous_element : option Element) (item : nat * JSON) : Element :=
  let '(idx, element_text) := item in
  mkElement NarrativeText
    (unit_header previous_element
       +++ "List Item " +++ PyStr.of_nat (idx + 1) +++ ": " +++ py_str element_text)
    (metadata element).

Definition _semantic_parse_table
  (element : Element) (previous_element : option Element) (llm : LLM)
  : Py (list Element) :=
  let response := llm [SemanticUnitsTemplate; user_message element] in
  element_texts <- _parse_llm_json_response response ;;
  items <- lift (py_iter element_texts) ;;
  ret (fold_left
         (fun elements item => elements ++ [unit_element element previous_element item])
         (enumerate items) []).

(** The raw copy of the table. *)
Definition raw_element (element : Element) (html : string) : Element :=
  mkElement NarrativeText (textwrap_dedent (re_sub_tags html)) (metadata element).

(** [re.sub] raises [TypeError] on a table without an HTML rendering. *)
Definition _semantic_ingest_table
  (element : Element) (previous_element : option Element) (llm : LLM)
  : Py (list Element) :=
  match text_as_html (metadata element) with
  | None => raise TypeError
  | Some html =>
      let elements := [raw_element element html] in
      let tasks :=
        (_semantic_parse_table element previous_element llm,
         _semantic_summarize_table element previous_element llm) in
      results0 <- fst tasks ;;
      results1 <- snd tasks ;;
      ret ((elements ++ results0) ++ [results1])
  end.

(** [previous_element] as the loop computes it for position [idx]. *)
Definition previous_of (elements : list Element) (idx : nat) : option Element :=
  if (0 <? idx)%nat then
    match nth_error elements (idx - 1) with
    | Some p =>
        if isinstance p NarrativeText || isinstance p Title then Some p else None
    | None => None
    end
  else None.

(** One turn of the first loop, on [tasks] and [nodes]. *)
Definition tables_body (elements : list Element) (llm : LLM)
  (st : list (Py (list Element)) * list Element) (item : nat * Element)
  : list (Py (list Element)) * list Element :=
  let '(tasks, nodes) := st in
  let '(idx, element) := item in
  if negb (isinstance element Table) then (tasks, nodes ++ [element])
  else
    let previous_element := previous_of elements idx in
    (tasks ++ [_semantic_ingest_table element previous_element llm], nodes).

(** Every task returns a list, so the second loop always extends. *)
Definition semantic_tables (elements : list Element) (llm : LLM) : Py (list Element) :=
  let '(tasks, nodes) :=
    fold_left (tables_body elements llm) (enumerate elements) ([], []) in
  results <- gather tasks ;;
  ret (fold_left (fun nodes item => nodes ++ item) results nodes).

(** The answer of the LLM to the unit-extraction prompt for a table. *)
Definition units_response (element : Element) (llm : LLM) : string :=
  llm [SemanticUnitsTemplate; user_message element].

(** The anchor of a table: the element right before it, when that is a
    NarrativeText or a Title. *)
Definition anchor_of (previous : option Element) : option Element :=
  match previous with
  | Some p => if isinstance p NarrativeText || isinstance p Title then Some p else None
  | None => None
  end.

(** The table units of a sequence that follows [previous]: each Table with
    its anchor, in document order. *)
Fixpoint table_units (previous : option Element) (elements : list Element)
  : list (Element * option Element) :=
  match elements with
  | [] => []
  | element :: rest =>
      (if isinstance element Table then [(element, anchor_of previous)] else [])
        ++ table_units (Some element) rest
  end.

(** The last element of a list, if any. *)
Definition last_opt (elements : list Element) : option Element :=
  match rev elements with
  | [] => None
  | x :: _ => Some x
  end.

(** The expansion of a table unit for the items the LLM returned: the raw
    rendering, one element per item, the summary. *)
Definition expansion_of
  (llm : LLM) (unit : Element * option Element) (html : string) (items : list JSON)
  : list Element :=
  raw_element (fst unit) html
    :: map (unit_element (fst unit) (snd unit)) (enumerate items)
    ++ [summary_element (fst unit) (snd unit) llm].

(** The order of the output as the specification words it: every Table
    replaced, where it stands, by its expansion. *)
Definition spliced_in_place
  (elements : list Element) (expansion : Element -> list Element) : list Element :=
  flat_map
    (fun element => if isinstance element Table then expansion element else [element])
    elements.

(** The items that the unit extraction turns into elements for the answer
    [response]: none when [json.loads] raises [JSONDecodeError] or when the
    first element of the decoded array is not a string; the elements of the
    decoded array when its first element is a string; the characters of a
    decoded string that is not empty.  For any other answer the unit
    extraction raises, and there are no such items. *)
Definition answer_items (response : string) (items : list JSON) : Prop :=
  match json_loads response with
  | Raise JSONDecodeError => items = []
  | Return (JArray (first :: rest)) =>
      items = if is_str first then first :: rest else []
  | Return (JString (String c s)) =>
      items = map (fun ch => JString (String ch EmptyString))
                  (c :: list_ascii_of_string s)
  | _ => False
  end.

(** A table unit whose ingestion cannot raise: the table has an HTML
    rendering, and the answer to the unit-extraction prompt has items in the
    sense of [answer_items]. *)
Definition answer_usable (llm : LLM) (unit : Element * option Element) : Prop :=
  (exists html, text_as_html (metadata (fst unit)) = Some html)
  /\ (exists items, answer_items (units_response (fst unit) llm) items).

(** [expansion] is the expansion of [unit]: the raw rendering of the HTML of
    the table, one unit element for each item of the answer, in the order of
    the answer, and the summary. *)
Definition expands_to
  (llm : LLM) (unit : Element * option Element) (expansion : list Element) : Prop :=
  exists html items,
    text_as_html (metadata (fst unit)) = Some html
    /\ answer_items (units_response (fst unit) llm) items
    /\ expansion = expansion_of llm unit html items.

(** The world after one more message was logged. *)
Definition logged (w : World) (msg : string) : World :=
  mkWorld (clock_reads w) (stages_entered w) (error_log w ++ [msg]).

End WithRuntime.

End SemanticTables.

(* ================================================================== *)
(** * parser.py *)
(* ================================================================== *)

Module Parser.

Record SemanticDocumentParserStats : Type := mkStats {
  element_parse_time : option Z;
  metadata_parse_time : option Z;
  paragraph_parse_time : option Z;
  list_parse_time : option Z;
  table_parse_time : option Z
}.

Record SemanticDocumentParser : Type := mkParser {
  llm_model : LLM;
  node_parser : SemanticSplitterNodeParser
}.

Section WithRuntime.
Context `{PyRuntime}.

Definition aparse (self : SemanticDocumentParser) (document : BytesIO)
  : Py (list Element * SemanticDocumentParserStats) :=
  _1_start_time <- now ;;
  let elements := partition document in
  _1_end_time <- now ;;
  if (List.length elements <? 1)%nat then
    let stats :=
      mkStats (Some (_1_end_time - _1_start_time)%Z) None None None None in
    ret ([], stats)
  else
    _2_start_time <- now ;;
    enter_stage MetadataStage ;;;
    let elements := MetadataParser.metadata_parser elements in
    _2_end_time <- now ;;
    _3_start_time <- now ;;
    enter_stage SplitterStage ;;;
    let elements := SemanticSplitter.semantic_splitter elements (node_parser self) in
    _3_end_time <- now ;;
    _4_start_time <- now ;;
    enter_stage ListStage ;;;
    let elements := ListParser.list_parser elements in
    _4_end_time <- now ;;
    _5_start_time <- now ;;
    enter_stage TableStage ;;;
    elements <- SemanticTables.semantic_tables elements (llm_model self) ;;
    _5_end_time <- now ;;
    let stats :=
      mkStats (Some (_1_end_time - _1_start_time)%Z)
              (Some (_2_end_time - _2_start_time)%Z)
              (Some (_3_end_time - _3_start_time)%Z)
              (Some (_4_end_time - _4_start_time)%Z)
              (Some (_5_end_time - _5_start_time)%Z) in
    ret (elements, stats).

End WithRuntime.

End Parser.

(* ================================================================== *)
(** * A concrete runtime, for running the model on examples *)
(* ================================================================== *)

Module Sample.

(** The double quote character, as a string. *)
Definition DQ : string := String (ascii_of_nat 34) EmptyString.

(** The JSON text of the array of the two strings "Row one" and "Row two". *)
Definition two_rows_json : string :=
  "[" +++ DQ +++ "Row one" +++ DQ +++ ", " +++ DQ +++ "Row two" +++ DQ +++ "]".

(** [n] times the character [c]. *)
Fixpoint repeat_char (c : ascii) (n : nat) : string :=
  match n with
  | O => EmptyString
  | S n' => String c (repeat_char c n')
  end.

(** 1500 opening brackets and nothing else.  This is no JSON text, and
    [json.loads] gives up on it with [RecursionError] before it can tell. *)
Definition deep_brackets : string := repeat_char "["%char 1500.

(** A decoder that agrees with [json.loads] on the answers used below: three
    arrays, the deep nesting, and prose, which does not parse. *)
Definition json_loads (s : string) : Outcome JSON :=
  if (s =? two_rows_json)%string then Return (JArray [JString "Row one"; JString "Row two"])
  else if (s =? "[]")%string then Return (JArray [])
  else if (s =? "[1, 2]")%string then Return (JArray [JInt 1; JInt 2])
  else if (s =? deep_brackets)%string then Raise RecursionError
  else Raise JSONDecodeError.

Definition units_template : ChatMessage := mkChatMessage "system" (Some "units").
Definition summary_template : ChatMessage := mkChatMessage "system" (Some "summary").

(** An LLM whose answer to the unit-extraction prompt depends on the table:
    a well-formed array, prose, the empty array, or an array of numbers.  It
    answers the summary prompt with one sentence. *)
Definition llm : LLM :=
  fun messages =>
    match messages with
    | [system; user] =>
        if (role system =? "system")%string
           && match content system with
              | Some c => (c =? "units")%string
              | None => false
              end
        then
          match content user with
          | Some "<table>prose</table>" => "Sorry, I cannot read this table."
          | Some "<table>empty</table>" => "[]"
          | Some "<table>numbers</table>" => "[1, 2]"
          | Some "<table>deep</table>" => deep_brackets
          | _ => two_rows_json
          end
        else "The table has two rows."
    | _ => EmptyString
    end.

(** [re.sub] and [textwrap.dedent] on the renderings used below, which hold
    one tag pair around a word. *)
Definition strip_table_tags (html : string) : string :=
  match html with
  | "<table>prose</table>" => "prose"
  | "<table>empty</table>" => "empty"
  | "<table>numbers</table>" => "numbers"
  | "<table>rows</table>" => "rows"
  | "<table>deep</table>" => "deep"
  | other => other
  end.

(** A partitioner by cases on the first byte: the empty document has no
    elements; a document starting with the byte 1 holds a table that the LLM
    answers with the empty array; any other holds a title and a paragraph. *)
Definition partition (document : BytesIO) : list Element :=
  match document with
  | [] => []
  | Byte.x01 :: _ => [title_of "Rooms"; table_of "r" "<table>empty</table>"]
  | _ => [title_of "Scope"; narrative_of "It parses documents."]
  end.

(** A clock that advances one second per reading, from 1700000000. *)
Definition time_time (n : nat) : Z := (1700000000 + Z.of_nat n)%Z.

#[local] Instance runtime : PyRuntime := {
  json_loads := json_loads;
  py_repr := fun v => match v with JInt n => PyStr.of_nat (Z.to_nat n) | _ => "?" end;
  traceback_format_exc := fun _ => "Traceback (most recent call last): ...";
  re_sub_tags := strip_table_tags;
  textwrap_dedent := fun s => s;
  time_time := time_time;
  partition := partition;
  SemanticUnitsTemplate := units_template;
  SemanticSummaryTemplate := summary_template
}.

Definition parser : Parser.SemanticDocumentParser :=
  Parser.mkParser llm SemanticSplitter.whole_text_parser.

End Sample.

(* ================================================================== *)
(** * Facts about Python strings *)
(* ================================================================== *)

Lemma append_assoc (a b c : string) : (a +++ b) +++ c = a +++ b +++ c.
Proof. induction a as [|ch a IH]; simpl; [reflexivity | now rewrite IH]. Qed.

Lemma append_empty_r (a : string) : a +++ EmptyString = a.
Proof. induction a as [|ch a IH]; simpl; [reflexivity | now rewrite IH]. Qed.

Lemma length_append (a b : string) :
  String.length (a +++ b) = String.length a + String.length b.
Proof. induction a as [|ch a IH]; simpl; [reflexivity | now rewrite IH]. Qed.

Lemma take_length_append (a b : string) : PyStr.take (String.length a) (a +++ b) = a.
Proof. induction a as [|ch a IH]; simpl; [now destruct b | now rewrite IH]. Qed.

Lemma drop_length_append (a b : string) : PyStr.drop (String.length a) (a +++ b) = b.
Proof. induction a as [|ch a IH]; simpl; [reflexivity | exact IH]. Qed.

Lemma slice_bound_inside (len n : nat) :
  n <= len -> PyStr.slice_bound len (Z.of_nat n) = n.
Proof.
  intros Hn. unfold PyStr.slice_bound.
  destruct (Z.ltb_spec (Z.of_nat n) 0) as [Hneg|_]; [lia|].
  rewrite Nat2Z.id. lia.
Qed.

(** Slicing an appended string at the seam gives back the two parts. *)
Lemma slice_to_seam (a b : string) : PyStr.slice_to (a +++ b) (PyStr.len a) = a.
Proof.
  unfold PyStr.slice_to, PyStr.len.
  rewrite slice_bound_inside by (rewrite length_append; lia).
  apply take_length_append.
Qed.

Lemma slice_from_seam (a b : string) : PyStr.slice_from (a +++ b) (PyStr.len a) = b.
Proof.
  unfold PyStr.slice_from, PyStr.len.
  rewrite slice_bound_inside by (rewrite length_append; lia).
  apply drop_length_append.
Qed.

Lemma len_append (a b : string) : PyStr.len (a +++ b) = (PyStr.len a + PyStr.len b)%Z.
Proof. unfold PyStr.len. rewrite length_append. lia. Qed.

(* ================================================================== *)
(** * Facts about [isinstance] *)
(* ================================================================== *)

Lemma ElementKind_eqb_eq (a b : ElementKind) :
  ElementKind_eqb a b = true <-> a = b.
Proof. destruct a, b; simpl; split; congruence. Qed.

Lemma isinstance_kind (element : Element) (k : ElementKind) :
  isinstance element k = true <-> kind element = k.
Proof. apply ElementKind_eqb_eq. Qed.

Lemma isinstance_exclusive_opt (x : option Element) (k k' : ElementKind) :
  isinstance_opt x k = true -> k <> k' -> isinstance_opt x k' = false.
Proof.
  destruct x as [element|]; simpl; [|discriminate].
  unfold isinstance. destruct (kind element), k, k'; simpl; congruence.
Qed.

Lemma isinstance_exclusive (element : Element) (k k' : ElementKind) :
  isinstance element k = true -> k <> k' -> isinstance element k' = false.
Proof.
  unfold isinstance. destruct (kind element), k, k'; simpl; congruence.
Qed.

(* ================================================================== *)
(** * The List Consolidator *)
(* ================================================================== *)

Section ListParserFacts.
Import ListParser.

(** The loop of [_list_group_parser] appends one node per item, in order. *)
Lemma item_loop_map (header : option Element) (items : list (nat * Element))
  (acc : list Element) :
  fold_left (fun nodes '(idx, element) => nodes ++ [item_node header idx element])
            items acc
  = acc ++ map (fun '(idx, element) => item_node header idx element) items.
Proof.
  revert acc. induction items as [|[idx element] items IH]; intros acc; simpl.
  - now rewrite app_nil_r.
  - rewrite IH, <- app_assoc. reflexivity.
Qed.

Lemma _list_group_parser_eq (elements : list Element) (header : option Element) :
  _list_group_parser elements header
  = aggregate_node elements header
      :: map (fun '(idx, element) => item_node header idx element) (enumerate elements).
Proof. unfold _list_group_parser. now rewrite item_loop_map. Qed.

(** A list item leaves [nodes] as it is. *)
Lemma loop_body_list_item (st : LoopState) (element : Element) :
  isinstance element ListItem = true ->
  nodes (loop_body st element) = nodes st.
Proof. intros Hli. unfold loop_body. now rewrite Hli. Qed.

Lemma loop_run_nodes (run : list Element) (st : LoopState) :
  Forall (fun element => isinstance element ListItem = true) run ->
  nodes (fold_left loop_body run st) = nodes st.
Proof.
  intros Hrun. revert st.
  induction Hrun as [|element run Hli _ IH]; intros st; simpl.
  - reflexivity.
  - now rewrite IH, loop_body_list_item.
Qed.

Lemma list_items_not_page_breaks (run : list Element) :
  Forall (fun element => isinstance element ListItem = true) run ->
  _iterate_without_page_breaks run = run.
Proof.
  unfold _iterate_without_page_breaks.
  induction 1 as [|element run Hli _ IH]; simpl; [reflexivity|].
  rewrite (isinstance_exclusive element ListItem PageBreak Hli) by discriminate.
  simpl. now rewrite IH.
Qed.

Lemma _iterate_without_page_breaks_app (a b : list Element) :
  _iterate_without_page_breaks (a ++ b)
  = _iterate_without_page_breaks a ++ _iterate_without_page_breaks b.
Proof. apply filter_app. Qed.

Lemma _iterate_without_page_breaks_keep (x : Element) (l : list Element) :
  isinstance x PageBreak = false ->
  _iterate_without_page_breaks (x :: l) = x :: _iterate_without_page_breaks l.
Proof. intros Hx. unfold _iterate_without_page_breaks. simpl. now rewrite Hx. Qed.

(** X9. Nothing is emitted for a run of list items that the input ends with:
    the output is that of the input without the run. *)
Lemma list_parser_final_run_dropped (elements run : list Element) :
  Forall (fun element => isinstance element ListItem = true) run ->
  list_parser (elements ++ run) = list_parser elements.
Proof.
  intros Hrun. unfold list_parser.
  rewrite _iterate_without_page_breaks_app, fold_left_app.
  rewrite (list_items_not_page_breaks run Hrun).
  now apply loop_run_nodes.
Qed.

Lemma settled_init : settled loop_init.
Proof. intros _. split; reflexivity. Qed.

Lemma settled_loop_body (st : LoopState) (element : Element) :
  settled st -> settled (loop_body st element).
Proof.
  intros Hst. unfold loop_body, settled.
  destruct (isinstance element ListItem) eqn:Hli; simpl.
  - intros Hlast. congruence.
  - destruct (isinstance_opt (last_node st) ListItem) eqn:Hlast; simpl; intros _.
    + split; reflexivity.
    + now apply Hst.
Qed.

Lemma settled_fold (elements : list Element) (st : LoopState) :
  settled st -> settled (fold_left loop_body elements st).
Proof.
  revert st. induction elements as [|element elements IH]; intros st Hst; simpl.
  - exact Hst.
  - apply IH. now apply settled_loop_body.
Qed.

(** The loop only ever appends to [nodes]. *)
Lemma loop_nodes_grow (elements : list Element) (st : LoopState) :
  exists more, nodes (fold_left loop_body elements st) = nodes st ++ more.
Proof.
  revert st. induction elements as [|element elements IH]; intros st; simpl.
  - exists []. now rewrite app_nil_r.
  - destruct (IH (loop_body st element)) as [more Hmore]. rewrite Hmore.
    unfold loop_body.
    destruct (isinstance element ListItem); simpl.
    + now exists more.
    + destruct (isinstance_opt (last_node st) ListItem); simpl.
      * exists ([element] ++ _list_group_parser (list_group st) (header_node st) ++ more).
        now rewrite <- !app_assoc.
      * exists ([element] ++ more). now rewrite <- !app_assoc.
Qed.


Lemma loop_body_in_run (st : LoopState) (element : Element) :
  isinstance element ListItem = true ->
  isinstance_opt (last_node st) ListItem = true ->
  loop_body st element
  = mkLoop (nodes st) (header_node st) (list_group st ++ [element]) (Some element).
Proof.
  intros Hli Hlast. unfold loop_body. rewrite Hli.
  rewrite (isinstance_exclusive_opt _ ListItem NarrativeText Hlast) by discriminate.
  rewrite (isinstance_exclusive_opt _ ListItem Title Hlast) by discriminate.
  reflexivity.
Qed.

(** A run goes on: list items after a list item only extend the group. *)
Lemma loop_run_continues (run : list Element) (st : LoopState) :
  Forall (fun element => isinstance element ListItem = true) run ->
  isinstance_opt (last_node st) ListItem = true ->
  let st' := fold_left loop_body run st in
  nodes st' = nodes st /\ header_node st' = header_node st
  /\ list_group st' = list_group st ++ run
  /\ isinstance_opt (last_node st') ListItem = true.
Proof.
  intros Hrun. revert st.
  induction Hrun as [|element run Hli _ IH]; intros st Hlast; simpl.
  - now rewrite app_nil_r.
  - rewrite (loop_body_in_run st element Hli Hlast).
    destruct (IH (mkLoop (nodes st) (header_node st) (list_group st ++ [element])
                         (Some element)) Hli) as (Hn & Hh & Hg & Hl).
    simpl in Hn, Hh, Hg. rewrite <- app_assoc in Hg. auto.
Qed.

(** Without list items the loop copies its input. *)
Lemma loop_without_list_items (elements : list Element) (st : LoopState) :
  Forall (fun element => isinstance element ListItem = false) elements ->
  isinstance_opt (last_node st) ListItem = false ->
  nodes (fold_left loop_body elements st) = nodes st ++ elements.
Proof.
  intros Hno. revert st.
  induction Hno as [|element elements Hli _ IH]; intros st Hlast; simpl.
  - now rewrite app_nil_r.
  - rewrite IH.
    + unfold loop_body. rewrite Hli, Hlast. simpl. now rewrite <- app_assoc.
    + unfold loop_body. rewrite Hli, Hlast. simpl. exact Hli.
Qed.

(** C9. For an input without ListItem elements, [list_parser] returns the
    input with its PageBreak elements removed and nothing else changed. *)
Theorem list_parser_without_list_items (elements : list Element) :
  (forall element, In element elements -> isinstance element ListItem = false) ->
  list_parser elements
  = filter (fun element => negb (isinstance element PageBreak)) elements.
Proof.
  intros Hno. unfold list_parser.
  rewrite loop_without_list_items; [reflexivity | | reflexivity].
  apply Forall_forall. intros element Hin.
  apply Hno. unfold _iterate_without_page_breaks in Hin.
  now apply filter_In in Hin.
Qed.

Lemma list_parser_without_list_items_witness :
  let elements :=
    [title_of "Intro"; page_break; narrative_of "Body"; table_of "t" "<table/>"] in
  (forall element, In element elements -> isinstance element ListItem = false)
  /\ list_parser elements
     = [title_of "Intro"; narrative_of "Body"; table_of "t" "<table/>"].
Proof.
  split.
  - intros element [<-|[<-|[<-|[<-|[]]]]]; reflexivity.
  - apply (list_parser_without_list_items
             [title_of "Intro"; page_break; narrative_of "Body"; table_of "t" "<table/>"]).
    intros element [<-|[<-|[<-|[<-|[]]]]]; reflexivity.
Defined.


(** A non-list element after a list item closes the run: it is appended
    first, and the nodes of the run follow it. *)
Lemma loop_body_closes_run (st : LoopState) (x : Element) :
  isinstance x ListItem = false ->
  isinstance_opt (last_node st) ListItem = true ->
  nodes (loop_body st x)
  = nodes st ++ x :: _list_group_parser (list_group st) (header_node st).
Proof.
  intros Hx Hlast. unfold loop_body. rewrite Hx, Hlast. simpl.
  now rewrite <- app_assoc.
Qed.

(** The first list item after a Title or NarrativeText takes it as header. *)
Lemma loop_body_opens_run (st : LoopState) (header item : Element) :
  isinstance header Title = true \/ isinstance header NarrativeText = true ->
  isinstance item ListItem = true ->
  last_node st = Some header ->
  loop_body st item
  = mkLoop (nodes st) (Some header) (list_group st ++ [item]) (Some item).
Proof.
  intros Hheader Hitem Hlast. unfold loop_body. rewrite Hitem, Hlast. simpl.
  destruct Hheader as [-> | ->]; [rewrite orb_true_r | ]; reflexivity.
Qed.

(** X8. A run that a non-list element follows is flushed: what [list_parser]
    returns is its output up to the header, then the closing element, then the
    nodes [_list_group_parser] builds for the run under that header, then the
    output for the rest.  The closing element comes before the nodes of the
    run it closes. *)
Theorem list_parser_flushes_closed_run
  (pre items post : list Element) (header x : Element) :
  isinstance header Title = true \/ isinstance header NarrativeText = true ->
  items <> [] ->
  Forall (fun element => isinstance element ListItem = true) items ->
  isinstance x ListItem = false ->
  isinstance x PageBreak = false ->
  exists rest,
    list_parser (pre ++ header :: items ++ x :: post)
    = list_parser (pre ++ [header])
        ++ x :: _list_group_parser items (Some header) ++ rest.
Proof.
  intros Hheader Hne Hitems Hx Hxpb.
  assert (Hhli : isinstance header ListItem = false)
    by (destruct Hheader as [Hk|Hk];
        apply (isinstance_exclusive header _ ListItem Hk); discriminate).
  assert (Hhpb : isinstance header PageBreak = false)
    by (destruct Hheader as [Hk|Hk];
        apply (isinstance_exclusive header _ PageBreak Hk); discriminate).
  destruct items as [|item items]; [congruence|].
  inversion Hitems as [|? ? Hitem Hrun]; subst.
  unfold list_parser.
  rewrite !_iterate_without_page_breaks_app.
  rewrite (_iterate_without_page_breaks_keep header _ Hhpb).
  rewrite (_iterate_without_page_breaks_keep header _ Hhpb).
  rewrite _iterate_without_page_breaks_app.
  rewrite (list_items_not_page_breaks (item :: items) Hitems).
  rewrite (_iterate_without_page_breaks_keep x _ Hxpb).
  rewrite !fold_left_app. simpl fold_left.
  set (st0 := fold_left loop_body (_iterate_without_page_breaks pre) loop_init).
  assert (Hset0 : settled st0) by (apply settled_fold, settled_init).
  set (st1 := loop_body st0 header).
  assert (Hset1 : settled st1) by (apply settled_loop_body, Hset0).
  assert (Hlast1 : last_node st1 = Some header).
  { unfold st1, loop_body. rewrite Hhli.
    destruct (isinstance_opt (last_node st0) ListItem); reflexivity. }
  destruct Hset1 as [Hgroup1 Hheader1]; [rewrite Hlast1; exact Hhli|].
  rewrite (loop_body_opens_run st1 header item Hheader Hitem Hlast1).
  rewrite Hgroup1. simpl app. rewrite fold_left_app. cbn [fold_left].
  destruct (loop_run_continues items
              (mkLoop (nodes st1) (Some header) [item] (Some item)) Hrun Hitem)
    as (Hn & Hh & Hg & Hl).
  simpl in Hn, Hh, Hg.
  set (st3 := fold_left loop_body items
                (mkLoop (nodes st1) (Some header) [item] (Some item))) in *.
  destruct (loop_nodes_grow (_iterate_without_page_breaks post) (loop_body st3 x))
    as [rest Hrest].
  exists rest. rewrite Hrest, (loop_body_closes_run st3 x Hx Hl), Hn, Hh, Hg.
  now rewrite <- app_assoc.
Qed.


(** C3. The input ends with a run of two list items under the Title "Intro".
    The run is not flushed: only the Title is returned, with neither the
    aggregate node nor the per-item nodes.  The same run closed by a following
    NarrativeText is flushed in full. *)
Theorem list_parser_final_run_not_flushed :
  list_parser [title_of "Intro"; list_item_of "A"; list_item_of "B"]
  = [title_of "Intro"]
  /\ list_parser
       [title_of "Intro"; list_item_of "A"; list_item_of "B"; narrative_of "End"]
     = [title_of "Intro"; narrative_of "End";
        narrative_of ("Intro" +++ PyStr.LF +++ PyStr.LF +++ "- A" +++ PyStr.LF
                        +++ "- B There were 2 items.");
        narrative_of ("Intro" +++ PyStr.LF +++ PyStr.LF +++ "List Item #1): A");
        narrative_of ("Intro" +++ PyStr.LF +++ PyStr.LF +++ "List Item #2): B")].
Proof. split; reflexivity. Qed.

(** C7, as stated, fails: for the header "Intro" and the single item "A", no
    emitted node has the text with ONE line feed between the header text and
    the label. *)
Lemma item_text_one_line_feed_counterexample :
  ~ exists node,
      In node (_list_group_parser [list_item_of "A"] (Some (title_of "Intro")))
      /\ text node
         = item_text_one_line_feed (title_of "Intro") 1 (list_item_of "A").
Proof.
  intros [node [Hin Htext]].
  destruct Hin as [<-|[<-|[]]]; vm_compute in Htext; discriminate Htext.
Qed.

(** C7, amended. For N list items under the header H, [_list_group_parser]
    returns, in this order: one aggregate NarrativeText whose text is the text
    of H, two line feeds, the lines "- <item text>" joined by line feeds, and
    " There were <N> items."; then for each item i (counted from 1) one
    NarrativeText whose text is the text of H, TWO line feeds, and
    "List Item #<i>): <item text>", with the metadata of that item. *)
Theorem list_group_parser_with_header (items : list Element) (header : Element) :
  _list_group_parser items (Some header)
  = mkElement NarrativeText
      (text header +++ PyStr.LF +++ PyStr.LF
         +++ PyStr.join PyStr.LF (map (fun item => "- " +++ text item) items)
         +++ " There were " +++ PyStr.of_nat (List.length items) +++ " items.")
      empty_metadata
    :: map (fun '(idx, item) =>
              mkElement NarrativeText
                (text header +++ PyStr.LF +++ PyStr.LF
                   +++ "List Item #" +++ PyStr.of_nat (idx + 1) +++ "): " +++ text item)
                (metadata item))
           (enumerate items).
Proof.
  rewrite _list_group_parser_eq.
  unfold aggregate_node, item_node, header_text, footer_text.
  rewrite !append_assoc. f_equal.
  apply map_ext. intros [idx item]. now rewrite !append_assoc.
Qed.

(** The nodes built for a run are NarrativeText, never Table. *)
Lemma _list_group_parser_no_table (items : list Element) (header : option Element) :
  filter (fun element => isinstance element Table) (_list_group_parser items header)
  = [].
Proof.
  rewrite _list_group_parser_eq. cbn [filter]. unfold aggregate_node at 1.
  cbn [isinstance kind ElementKind_eqb].
  induction (enumerate items) as [|[idx item] rest IH]; simpl; [reflexivity|].
  exact IH.
Qed.

End ListParserFacts.

(* ================================================================== *)
(** * The Metadata Normalizer *)
(* ================================================================== *)

Section MetadataParserFacts.
Import MetadataParser.

(** One turn of the loop at a link that starts where [done] ends. *)
Lemma link_body_at_link (done : string) (link : Link) (tail : string)
  (offset change_delta : Z) :
  start_index link = offset ->
  (offset + change_delta)%Z = PyStr.len done ->
  link_body (done +++ link_text link +++ tail, change_delta) link
  = (done +++ link_text link +++ new_text link +++ tail,
     (change_delta + PyStr.len (new_text link))%Z).
Proof.
  intros Hstart Hdelta. unfold link_body. cbv beta iota zeta.
  rewrite Hstart, Hdelta, slice_to_seam.
  rewrite <- len_append, <- (append_assoc done (link_text link) tail), slice_from_seam.
  reflexivity.
Qed.

(** The loop invariant: [done] is the part already rewritten, and the delta
    is by how much it has grown. *)
Lemma link_loop_rewrites (segments : list (Link * string)) :
  forall (done : string) (offset change_delta : Z),
    placed_from offset segments ->
    (offset + change_delta)%Z = PyStr.len done ->
    fst (fold_left link_body (map fst segments)
                   (done +++ original_tail segments, change_delta))
    = done +++ rewritten_tail segments.
Proof.
  induction segments as [|[link after] rest IH]; intros done offset delta Hplaced Hdelta.
  - reflexivity.
  - destruct Hplaced as [Hstart Hrest].
    cbn [map fst fold_left original_tail rewritten_tail].
    rewrite (link_body_at_link done link (after +++ original_tail rest) offset delta
               Hstart Hdelta).
    replace (done +++ link_text link +++ new_text link +++ after +++ original_tail rest)
      with ((done +++ link_text link +++ new_text link +++ after) +++ original_tail rest)
      by now rewrite !append_assoc.
    rewrite (IH _ (offset + PyStr.len (link_text link) + PyStr.len after)%Z).
    + now rewrite !append_assoc.
    + exact Hrest.
    + rewrite !len_append. lia.
Qed.

(** C6, as stated, fails: with start_index 5 the replacement starts on the
    blank before "here", and the text becomes
    "Clickhere (The link URL is http://x)e now". *)
Lemma click_here_offset_5_counterexample :
  map text (metadata_parser [linked_text "Click here now" [mkLink 5 "here" "http://x"]])
  = ["Clickhere (The link URL is http://x)e now"]
  /\ map text (metadata_parser
                 [linked_text "Click here now" [mkLink 5 "here" "http://x"]])
     <> ["Click here (The link URL is http://x) now"].
Proof. split; [reflexivity | vm_compute; discriminate]. Qed.

(** C6, amended. With the link at start_index 6, where "here" starts in
    "Click here now", the text becomes
    "Click here (The link URL is http://x) now".  In general, when the links
    are listed from left to right and each start_index is the offset of the
    link text in the original text, the rewriting puts the note of every link
    right after its text: the running delta moves each later offset by what
    was inserted before it. *)
Theorem parse_element_urls_rebases_offsets :
  map text (metadata_parser [linked_text "Click here now" [mkLink 6 "here" "http://x"]])
  = ["Click here (The link URL is http://x) now"]
  /\ forall (element : Element) (before : string) (segments : list (Link * string)),
      links (metadata element) = Some (map fst segments) ->
      text element = before +++ original_tail segments ->
      placed_from (PyStr.len before) segments ->
      text (_parse_element_urls element) = before +++ rewritten_tail segments.
Proof.
  split; [reflexivity|].
  intros element before segments Hlinks Htext Hplaced.
  unfold _parse_element_urls. rewrite Hlinks, Htext.
  pose proof (link_loop_rewrites segments before (PyStr.len before) 0 Hplaced
                (Z.add_0_r _)) as Hloop.
  destruct (fold_left link_body (map fst segments)
                      (before +++ original_tail segments, 0%Z)) as [new_element_text d].
  exact Hloop.
Qed.

(** Two links in "See docs and code.": both notes land after their link. *)
Lemma parse_element_urls_rebases_offsets_witness :
  let docs := mkLink 4 "docs" "http://d" in
  let code := mkLink 13 "code" "http://c" in
  text (_parse_element_urls (linked_text "See docs and code." [docs; code]))
  = "See docs (The link URL is http://d) and code (The link URL is http://c).".
Proof.
  apply (proj2 parse_element_urls_rebases_offsets
           (linked_text "See docs and code."
                        [mkLink 4 "docs" "http://d"; mkLink 13 "code" "http://c"])
           "See "
           [(mkLink 4 "docs" "http://d", " and ");
            (mkLink 13 "code" "http://c", ".")]).
  - reflexivity.
  - reflexivity.
  - simpl. repeat split; reflexivity.
Defined.

End MetadataParserFacts.

(* ================================================================== *)
(** * The Semantic Grouper/Splitter *)
(* ================================================================== *)

Section SemanticSplitterFacts.
Import SemanticSplitter.

(** Whatever was computed, the input comes back. *)
Lemma semantic_splitter_is_identity
  (elements : list Element) (node_parser : SemanticSplitterNodeParser) :
  semantic_splitter elements node_parser = elements.
Proof. reflexivity. Qed.

(** Before the first Title no group is open, and the loop skips. *)
Lemma group_loop_before_first_title (pre : list Element) :
  Forall (fun element => isinstance element Title = false) pre ->
  fold_left group_body pre ([], None) = ([], None).
Proof.
  induction 1 as [|element pre Hnt _ IH]; cbn [fold_left]; [reflexivity|].
  replace (group_body ([], None) element) with (@nil ElementGroup, @None ElementGroup)
    by (unfold group_body; now rewrite Hnt).
  exact IH.
Qed.

Lemma _create_element_groups_skips_preamble (pre elements : list Element) :
  Forall (fun element => isinstance element Title = false) pre ->
  _create_element_groups (pre ++ elements) = _create_element_groups elements.
Proof.
  intros Hpre. unfold _create_element_groups.
  now rewrite fold_left_app, group_loop_before_first_title.
Qed.

(** In the sequence the stage builds (and then discards) the elements before
    the first Title leave no trace. *)
Lemma split_nodes_skips_preamble
  (pre elements : list Element) (node_parser : SemanticSplitterNodeParser) :
  Forall (fun element => isinstance element Title = false) pre ->
  split_nodes (pre ++ elements) node_parser = split_nodes elements node_parser.
Proof.
  intros Hpre. unfold split_nodes.
  now rewrite _create_element_groups_skips_preamble.
Qed.

(** C1. For a Title followed by one NarrativeText the stage builds the split
    sequence, one NarrativeText that starts with the Title text, and returns
    the input instead. *)
Theorem semantic_splitter_returns_input_not_split :
  let elements := [title_of "Scope"; narrative_of "It parses documents."] in
  split_nodes elements whole_text_parser
  = [narrative_of ("Scope" +++ PyStr.LF +++ "It parses documents.")]
  /\ semantic_splitter elements whole_text_parser = elements
  /\ semantic_splitter elements whole_text_parser
     <> split_nodes elements whole_text_parser.
Proof. repeat split; [vm_compute; discriminate]. Qed.

(** C4. A NarrativeText before the first Title is still in what the stage
    returns, although the sequence the stage builds does not have it. *)
Theorem semantic_splitter_keeps_preamble :
  let preamble := narrative_of "Draft 3" in
  let elements := [preamble; title_of "Scope"; narrative_of "It parses documents."] in
  In preamble (semantic_splitter elements whole_text_parser)
  /\ split_nodes elements whole_text_parser
     = [narrative_of ("Scope" +++ PyStr.LF +++ "It parses documents.")]
  /\ ~ In preamble (split_nodes elements whole_text_parser).
Proof.
  repeat split.
  - now left.
  - vm_compute. intros [Heq|[]]. discriminate Heq.
Qed.

End SemanticSplitterFacts.

(* ================================================================== *)
(** * Computations *)
(* ================================================================== *)

Section PyFacts.

Lemma bind_returns {A B : Type} (c : Py A) (k : A -> Py B) (w w1 : World) (a : A) :
  c w = (Return a, w1) -> bind c k w = k a w1.
Proof. intros Hc. unfold bind. now rewrite Hc. Qed.

Lemma bind_raises {A B : Type} (c : Py A) (k : A -> Py B) (w w1 : World) (e : PyExn) :
  c w = (Raise e, w1) -> bind c k w = (Raise e, w1).
Proof. intros Hc. unfold bind. now rewrite Hc. Qed.

(** What a returning [bind] went through. *)
Lemma bind_returns_inv {A B : Type} (c : Py A) (k : A -> Py B) (w w2 : World) (b : B) :
  bind c k w = (Return b, w2) ->
  exists a w1, c w = (Return a, w1) /\ k a w1 = (Return b, w2).
Proof.
  unfold bind. destruct (c w) as [[a|e] w1]; intros Hk.
  - now exists a, w1.
  - discriminate Hk.
Qed.

(** [gather] returns only when every task returned, result by result. *)
Lemma gather_returns_inv {A : Type} (tasks : list (Py A)) :
  forall (w w' : World) (results : list A),
    gather tasks w = (Return results, w') ->
    Forall2 (fun task r => exists w1 w2, task w1 = (Return r, w2)) tasks results.
Proof.
  induction tasks as [|task tasks IH]; intros w w' results Hg; simpl in Hg.
  - inversion Hg. constructor.
  - apply bind_returns_inv in Hg. destruct Hg as (r & w1 & Htask & Hg).
    apply bind_returns_inv in Hg. destruct Hg as (rs & w2 & Hrest & Hg).
    inversion Hg; subst. constructor.
    + now exists w, w1.
    + eapply IH. eassumption.
Qed.

(** [gather] returns when every task does, in every world. *)
Lemma gather_returns {A : Type} (tasks : list (Py A)) :
  Forall (fun task => forall w, exists r w', task w = (Return r, w')) tasks ->
  forall w, exists results w', gather tasks w = (Return results, w').
Proof.
  induction 1 as [|task tasks Htask _ IH]; intros w; simpl.
  - now exists [], w.
  - destruct (Htask w) as (r & w1 & Hr).
    destruct (IH w1) as (rs & w2 & Hrs).
    exists (r :: rs), w2.
    rewrite (bind_returns _ _ _ _ _ Hr), (bind_returns _ _ _ _ _ Hrs).
    reflexivity.
Qed.

(** [gather] raises as soon as one task raises in every world. *)
Lemma gather_raises {A : Type} (tasks : list (Py A)) :
  Exists (fun task => forall w, exists e w', task w = (Raise e, w')) tasks ->
  forall w, exists e w', gather tasks w = (Raise e, w').
Proof.
  induction 1 as [task tasks Htask | task tasks _ IH]; intros w; simpl.
  - destruct (Htask w) as (e & w1 & He). exists e, w1.
    now apply bind_raises.
  - destruct (task w) as [[r|e] w1] eqn:Ht.
    + rewrite (bind_returns _ _ _ _ _ Ht).
      destruct (IH w1) as (e & w2 & He). exists e, w2.
      now apply bind_raises.
    + exists e, w1. now apply bind_raises.
Qed.

End PyFacts.

(* ================================================================== *)
(** * The Table Semanticizer *)
(* ================================================================== *)

Section SemanticTablesFacts.
Import SemanticTables.
Context `{PyRuntime}.

(** ** Parsing the answer *)

Lemma _parse_llm_json_response_invalid_json (response : string) (w : World) :
  json_loads response = Raise JSONDecodeError ->
  _parse_llm_json_response response w
  = (Return (JArray []), logged w (parse_failure_message response)).
Proof.
  intros Hj. unfold _parse_llm_json_response, parse_try. now rewrite Hj.
Qed.

Lemma _parse_llm_json_response_first_not_str
  (response : string) (first : JSON) (rest : list JSON) (w : World) :
  json_loads response = Return (JArray (first :: rest)) ->
  is_str first = false ->
  _parse_llm_json_response response w
  = (Return (JArray []), logged w (parse_failure_message response)).
Proof.
  intros Hj Hfirst. unfold _parse_llm_json_response, parse_try.
  rewrite Hj. simpl. now rewrite Hfirst.
Qed.

Lemma _parse_llm_json_response_empty_array (response : string) (w : World) :
  json_loads response = Return (JArray []) ->
  _parse_llm_json_response response w = (Raise IndexError, w).
Proof.
  intros Hj. unfold _parse_llm_json_response, parse_try. now rewrite Hj.
Qed.

(** What comes back, iterated, is the items of the answer. *)
Lemma _parse_llm_json_response_returns_inv
  (response : string) (w w' : World) (v : JSON) (items : list JSON) :
  _parse_llm_json_response response w = (Return v, w') ->
  py_iter v = Return items ->
  answer_items response items.
Proof.
  unfold _parse_llm_json_response, parse_try, answer_items.
  destruct (json_loads response) as [decoded|e].
  - destruct decoded as [| b | n | literal | s | l | members];
      try (intros Hr; discriminate Hr).
    + destruct s as [|c s]; [intros Hr; discriminate Hr|].
      cbn. intros Hr Hiter. inversion Hr; subst v w'.
      cbn in Hiter. now inversion Hiter.
    + destruct l as [|first rest]; [intros Hr; discriminate Hr|].
      cbn [getitem0]. destruct (is_str first); cbn; intros Hr Hiter;
        inversion Hr; subst v w'; cbn in Hiter; now inversion Hiter.
  - destruct e; try (intros Hr; discriminate Hr).
    cbn. intros Hr Hiter. inversion Hr; subst v w'.
    cbn in Hiter. now inversion Hiter.
Qed.

(** An answer with items is parsed to a value whose iteration gives them. *)
Lemma _parse_llm_json_response_returns
  (response : string) (w : World) (items : list JSON) :
  answer_items response items ->
  exists v w', _parse_llm_json_response response w = (Return v, w')
               /\ py_iter v = Return items.
Proof.
  unfold _parse_llm_json_response, parse_try, answer_items.
  destruct (json_loads response) as [decoded|e].
  - destruct decoded as [| b | n | literal | s | l | members]; try contradiction.
    + destruct s as [|c s]; [contradiction|]. intros ->.
      cbn. eexists. eexists. split; reflexivity.
    + destruct l as [|first rest]; [contradiction|].
      cbn [getitem0]. destruct (is_str first); intros ->; cbn;
        eexists; eexists; split; reflexivity.
  - destruct e; try contradiction. intros ->.
    cbn. eexists. eexists. split; reflexivity.
Qed.

(** ** One table *)

Lemma unit_loop_map
  (element : Element) (previous_element : option Element)
  (items : list (nat * JSON)) (acc : list Element) :
  fold_left
    (fun elements item => elements ++ [unit_element element previous_element item])
    items acc
  = acc ++ map (unit_element element previous_element) items.
Proof.
  revert acc. induction items as [|item items IH]; intros acc; simpl.
  - now rewrite app_nil_r.
  - rewrite IH, <- app_assoc. reflexivity.
Qed.


(** The units once the answer is parsed to [element_texts]. *)
Lemma _semantic_parse_table_after_parse
  (element : Element) (previous_element : option Element) (llm : LLM)
  (w w1 : World) (element_texts : JSON) (items : list JSON) :
  _parse_llm_json_response (units_response element llm) w = (Return element_texts, w1) ->
  py_iter element_texts = Return items ->
  _semantic_parse_table element previous_element llm w
  = (Return (map (unit_element element previous_element) (enumerate items)), w1).
Proof.
  intros Hparse Hiter. unfold _semantic_parse_table.
  fold (units_response element llm).
  rewrite (bind_returns _ _ _ _ _ Hparse).
  unfold lift, bind at 1. rewrite Hiter.
  unfold ret. now rewrite unit_loop_map.
Qed.

(** The expansion once the units are there. *)
Lemma _semantic_ingest_table_after_units
  (element : Element) (previous_element : option Element) (llm : LLM)
  (html : string) (w w1 : World) (units : list Element) :
  text_as_html (metadata element) = Some html ->
  _semantic_parse_table element previous_element llm w = (Return units, w1) ->
  _semantic_ingest_table element previous_element llm w
  = (Return (raw_element element html
               :: units ++ [summary_element element previous_element llm]), w1).
Proof.
  intros Hhtml Hunits. unfold _semantic_ingest_table. rewrite Hhtml.
  cbn [fst snd]. rewrite (bind_returns _ _ _ _ _ Hunits).
  reflexivity.
Qed.

(** C5, amended. A table has an HTML rendering, and on the answer to its
    unit-extraction prompt [json.loads] raises [JSONDecodeError], or the
    answer decodes to an array whose first element is not a string.  Then the
    unit extraction logs one failure message that holds the raw answer and
    returns no unit, and the table expands to exactly its raw rendering and
    its summary; nothing is raised. *)
Theorem unit_extraction_failure_is_absorbed
  (element : Element) (previous_element : option Element) (llm : LLM)
  (html : string) (w : World) :
  text_as_html (metadata element) = Some html ->
  (json_loads (units_response element llm) = Raise JSONDecodeError
   \/ exists first rest,
        json_loads (units_response element llm) = Return (JArray (first :: rest))
        /\ is_str first = false) ->
  let failure :=
    "Failed to parse a table! Got invalid reply: "
      +++ units_response element llm +++ PyStr.LF
      +++ traceback_format_exc (units_response element llm) in
  _semantic_parse_table element previous_element llm w
  = (Return [], logged w failure)
  /\ _semantic_ingest_table element previous_element llm w
     = (Return [raw_element element html;
                summary_element element previous_element llm],
        logged w failure)
  /\ error_log (logged w failure) = error_log w ++ [failure].
Proof.
  intros Hhtml Hbad failure.
  assert (Hparse : _parse_llm_json_response (units_response element llm) w
                   = (Return (JArray []), logged w failure)).
  { destruct Hbad as [Hinvalid | (first & rest & Hdecoded & Hfirst)].
    - now apply _parse_llm_json_response_invalid_json.
    - now apply (_parse_llm_json_response_first_not_str _ first rest). }
  assert (Hunits : _semantic_parse_table element previous_element llm w
                   = (Return [], logged w failure))
    by exact (_semantic_parse_table_after_parse element previous_element llm
                w _ (JArray []) [] Hparse eq_refl).
  repeat split.
  - exact Hunits.
  - exact (_semantic_ingest_table_after_units element previous_element llm
             html w _ [] Hhtml Hunits).
Qed.

(** ** The whole sequence *)

Lemma last_opt_snoc (done : list Element) (x : Element) :
  last_opt (done ++ [x]) = Some x.
Proof. unfold last_opt. now rewrite rev_unit. Qed.

(** At the position after [done], the loop looks at the last of [done]. *)
Lemma previous_of_at (done rest : list Element) (x : Element) :
  previous_of (done ++ x :: rest) (List.length done) = anchor_of (last_opt done).
Proof.
  destruct done as [|y done'] using rev_ind; [reflexivity|].
  rewrite last_opt_snoc, length_app. simpl List.length.
  unfold previous_of.
  replace (0 <? List.length done' + 1)%nat with true
    by (symmetry; apply Nat.ltb_lt; lia).
  rewrite Nat.add_sub, <- app_assoc.
  rewrite nth_error_app2 by lia. rewrite Nat.sub_diag. reflexivity.
Qed.

(** The first loop, from any position on: the tasks are the ingestions of the
    table units, and [nodes] takes the other elements. *)
Lemma tables_loop (llm : LLM) (rest : list Element) :
  forall (done : list Element) (tasks : list (Py (list Element))) (nodes : list Element),
    fold_left (tables_body (done ++ rest) llm)
              (enumerate_from (List.length done) rest) (tasks, nodes)
    = (tasks ++ map (fun unit => _semantic_ingest_table (fst unit) (snd unit) llm)
                    (table_units (last_opt done) rest),
       nodes ++ filter (fun element => negb (isinstance element Table)) rest).
Proof.
  induction rest as [|x rest IH]; intros done tasks nodes.
  - simpl. now rewrite !app_nil_r.
  - cbn [enumerate_from fold_left table_units filter].
    unfold tables_body at 2. rewrite previous_of_at.
    replace (done ++ x :: rest) with ((done ++ [x]) ++ rest)
      by (now rewrite <- app_assoc).
    replace (S (List.length done)) with (List.length (done ++ [x]))
      by (rewrite length_app; simpl; lia).
    destruct (isinstance x Table); simpl negb; cbv iota.
    + rewrite IH, last_opt_snoc. simpl. now rewrite <- app_assoc.
    + rewrite IH, last_opt_snoc. simpl. now rewrite <- app_assoc.
Qed.

Lemma extend_loop_concat (results : list (list Element)) (nodes : list Element) :
  fold_left (fun nodes item => nodes ++ item) results nodes = nodes ++ List.concat results.
Proof.
  revert nodes. induction results as [|item results IH]; intros nodes; simpl.
  - now rewrite app_nil_r.
  - now rewrite IH, app_assoc.
Qed.

(** The stage in one equation: the elements that are no tables, in their
    order, and after them what the ingestions returned, in the order of the
    tables. *)
Lemma semantic_tables_eq (elements : list Element) (llm : LLM) (w : World) :
  semantic_tables elements llm w
  = bind (gather (map (fun unit => _semantic_ingest_table (fst unit) (snd unit) llm)
                      (table_units None elements)))
         (fun results =>
            ret (filter (fun element => negb (isinstance element Table)) elements
                   ++ List.concat results))
         w.
Proof.
  unfold semantic_tables, enumerate.
  pose proof (tables_loop llm elements [] [] []) as Hloop.
  simpl in Hloop. rewrite Hloop.
  unfold bind. destruct (gather _ w) as [[results|e] w1]; [|reflexivity].
  unfold ret. now rewrite extend_loop_concat.
Qed.

(** What a returning ingestion returned. *)
Lemma _semantic_ingest_table_returns_inv
  (element : Element) (previous_element : option Element) (llm : LLM)
  (w w' : World) (expansion : list Element) :
  _semantic_ingest_table element previous_element llm w = (Return expansion, w') ->
  expands_to llm (element, previous_element) expansion.
Proof.
  unfold _semantic_ingest_table, expands_to. cbn [fst snd].
  destruct (text_as_html (metadata element)) as [html|]; [|discriminate].
  intros Hr. exists html.
  apply bind_returns_inv in Hr. destruct Hr as (units & w1 & Hunits & Hr).
  apply bind_returns_inv in Hr. destruct Hr as (summary & w2 & Hsummary & Hr).
  inversion Hsummary; subst summary w2. inversion Hr; subst expansion w'.
  unfold _semantic_parse_table in Hunits. fold (units_response element llm) in Hunits.
  apply bind_returns_inv in Hunits. destruct Hunits as (v & w2 & Hparse & Hunits).
  apply bind_returns_inv in Hunits. destruct Hunits as (items & w3 & Hiter & Hunits).
  inversion Hiter as [[Hitems Hw]]. inversion Hunits as [[Hu Hw']].
  exists items. rewrite unit_loop_map. simpl app.
  split; [reflexivity|]. split; [|reflexivity].
  exact (_parse_llm_json_response_returns_inv _ _ _ _ _ Hparse Hitems).
Qed.

(** A usable answer makes the ingestion return. *)
Lemma _semantic_ingest_table_returns
  (llm : LLM) (unit : Element * option Element) :
  answer_usable llm unit ->
  forall w, exists expansion w',
    _semantic_ingest_table (fst unit) (snd unit) llm w = (Return expansion, w').
Proof.
  intros [[html Hhtml] [items Hanswer]] w.
  destruct (_parse_llm_json_response_returns _ w items Hanswer)
    as (v & w1 & Hparse & Hiter).
  pose proof (_semantic_parse_table_after_parse (fst unit) (snd unit) llm
                w w1 v items Hparse Hiter) as Hunits.
  eexists. exists w1.
  exact (_semantic_ingest_table_after_units (fst unit) (snd unit) llm html w w1 _
           Hhtml Hunits).
Qed.

(** C2, as stated, fails: for a Table followed by a Title the stage returns
    the Title first and the expansion of the table after it, not the
    expansion where the table stood. *)
Lemma semantic_tables_in_place_counterexample :
  let table := table_of "t" "<table>rows</table>" in
  let elements := [table; title_of "After"] in
  let expansion :=
    [narrative_of_table table "rows";
     narrative_of_table table "List Item 1: Row one";
     narrative_of_table table "List Item 2: Row two";
     narrative_of_table table "The table has two rows."] in
  @semantic_tables Sample.runtime elements Sample.llm initial_world
  = (Return (title_of "After" :: expansion), initial_world)
  /\ fst (@semantic_tables Sample.runtime elements Sample.llm initial_world)
     <> Return (spliced_in_place elements (fun _ => expansion)).
Proof. split; [reflexivity | vm_compute; discriminate]. Qed.

(** C2, amended. The stage returns whenever every table has a usable answer.
    Whenever it returns, the output is the elements that are not tables,
    unchanged and in their original order, followed by the expansions of the
    tables in the order of the tables; each expansion is the raw rendering,
    then the unit elements in the order of the answer, then the summary.  The
    expansions are appended after the other elements, not put where the tables
    stood. *)
Theorem semantic_tables_appends_expansions (elements : list Element) (llm : LLM) :
  (Forall (answer_usable llm) (table_units None elements) ->
   forall w, exists out w', semantic_tables elements llm w = (Return out, w'))
  /\ (forall w out w',
        semantic_tables elements llm w = (Return out, w') ->
        exists expansions,
          out = filter (fun element => negb (isinstance element Table)) elements
                  ++ List.concat expansions
          /\ Forall2 (expands_to llm) (table_units None elements) expansions).
Proof.
  split.
  - intros Husable w. rewrite semantic_tables_eq.
    destruct (gather_returns
                (map (fun unit => _semantic_ingest_table (fst unit) (snd unit) llm)
                     (table_units None elements))) with (w := w)
      as (results & w1 & Hresults).
    + apply Forall_map. revert Husable. apply Forall_impl.
      intros unit Hunit. now apply _semantic_ingest_table_returns.
    + rewrite (bind_returns _ _ _ _ _ Hresults). unfold ret. eauto.
  - intros w out w' Hout. rewrite semantic_tables_eq in Hout.
    apply bind_returns_inv in Hout. destruct Hout as (results & w1 & Hresults & Hout).
    inversion Hout; subst out w1. exists results. split; [reflexivity|].
    apply gather_returns_inv in Hresults. clear Hout.
    remember (table_units None elements) as units eqn:Hunits. clear Hunits.
    revert results Hresults.
    induction units as [|[element previous] units IH]; intros results Hresults;
      inversion Hresults as [|task r tasks rs Htask Hrest]; subst; constructor.
    + destruct Htask as (w1 & w2 & Htask).
      exact (_semantic_ingest_table_returns_inv _ _ _ _ _ _ Htask).
    + now apply IH.
Qed.

(** ** When the answer is the empty array *)

Lemma _semantic_ingest_table_empty_array
  (element : Element) (previous_element : option Element) (llm : LLM)
  (html : string) (w : World) :
  text_as_html (metadata element) = Some html ->
  json_loads (units_response element llm) = Return (JArray []) ->
  _semantic_ingest_table element previous_element llm w = (Raise IndexError, w).
Proof.
  intros Hhtml Hempty. unfold _semantic_ingest_table. rewrite Hhtml. cbn [fst snd].
  apply bind_raises. unfold _semantic_parse_table.
  fold (units_response element llm). apply bind_raises.
  now apply _parse_llm_json_response_empty_array.
Qed.

(** Every table of the sequence is the table of one of its units. *)
Lemma table_units_In (elements : list Element) (table : Element) :
  In table elements ->
  isinstance table Table = true ->
  forall previous, exists anchor, In (table, anchor) (table_units previous elements).
Proof.
  induction elements as [|x elements IH]; intros Hin Htable previous; [contradiction|].
  destruct Hin as [-> | Hin]; simpl.
  - rewrite Htable. exists (anchor_of previous). now left.
  - destruct (IH Hin Htable (Some x)) as [anchor Hanchor].
    exists anchor. apply in_or_app. now right.
Qed.

Lemma table_units_without_tables (elements : list Element) :
  Forall (fun element => isinstance element Table = false) elements ->
  forall previous, table_units previous elements = [].
Proof.
  induction 1 as [|x elements Hx _ IH]; intros previous; simpl; [reflexivity|].
  now rewrite Hx, IH.
Qed.

Lemma table_units_app (pre post : list Element) (x : Element) :
  forall previous,
    table_units previous (pre ++ x :: post)
    = table_units previous pre
        ++ table_units (match last_opt pre with Some y => Some y | None => previous end)
                       (x :: post).
Proof.
  induction pre as [|y pre IH]; intros previous; [reflexivity|].
  cbn [app table_units]. rewrite IH, <- app_assoc. do 3 f_equal.
  destruct pre as [|z pre'] using rev_ind.
  - reflexivity.
  - rewrite last_opt_snoc.
    change (y :: pre' ++ [z]) with ((y :: pre') ++ [z]). now rewrite last_opt_snoc.
Qed.

(** The stage raises when one of its tables is answered with the empty
    array. *)
Lemma semantic_tables_raises_on_empty_array
  (elements : list Element) (llm : LLM) (table : Element) (html : string) :
  In table elements ->
  isinstance table Table = true ->
  text_as_html (metadata table) = Some html ->
  json_loads (units_response table llm) = Return (JArray []) ->
  forall w, exists e w', semantic_tables elements llm w = (Raise e, w').
Proof.
  intros Hin Htable Hhtml Hempty w. rewrite semantic_tables_eq.
  destruct (table_units_In elements table Hin Htable None) as [anchor Hanchor].
  destruct (gather_raises
              (map (fun unit => _semantic_ingest_table (fst unit) (snd unit) llm)
                   (table_units None elements))) with (w := w)
    as (e & w1 & Hraise).
  - apply Exists_exists.
    exists (_semantic_ingest_table table anchor llm). split.
    + apply in_map_iff. now exists (table, anchor).
    + intros w0. exists IndexError, w0.
      now apply (_semantic_ingest_table_empty_array table anchor llm html).
  - exists e, w1. now apply bind_raises.
Qed.

(** When that table is the only one, the exception is the [IndexError], and
    nothing was logged. *)
Lemma semantic_tables_only_table_empty_array
  (pre post : list Element) (llm : LLM) (table : Element) (html : string) (w : World) :
  Forall (fun element => isinstance element Table = false) pre ->
  Forall (fun element => isinstance element Table = false) post ->
  isinstance table Table = true ->
  text_as_html (metadata table) = Some html ->
  json_loads (units_response table llm) = Return (JArray []) ->
  semantic_tables (pre ++ table :: post) llm w = (Raise IndexError, w).
Proof.
  intros Hpre Hpost Htable Hhtml Hempty. rewrite semantic_tables_eq.
  rewrite table_units_app, (table_units_without_tables pre Hpre).
  cbn [app table_units]. rewrite Htable, (table_units_without_tables post Hpost).
  cbn [app map gather fst snd].
  apply bind_raises, bind_raises.
  now apply (_semantic_ingest_table_empty_array table _ llm html).
Qed.

(** The tables of the units are the tables of the sequence. *)
Lemma table_units_tables (elements : list Element) :
  forall previous,
    map fst (table_units previous elements)
    = filter (fun element => isinstance element Table) elements.
Proof.
  induction elements as [|x elements IH]; intros previous; simpl; [reflexivity|].
  destruct (isinstance x Table); simpl; now rewrite IH.
Qed.

(** The same when the sequence has one table, wherever it stands. *)
Lemma semantic_tables_one_table_empty_array
  (elements : list Element) (llm : LLM) (table : Element) (html : string) (w : World) :
  filter (fun element => isinstance element Table) elements = [table] ->
  text_as_html (metadata table) = Some html ->
  json_loads (units_response table llm) = Return (JArray []) ->
  semantic_tables elements llm w = (Raise IndexError, w).
Proof.
  intros Hone Hhtml Hempty. rewrite semantic_tables_eq.
  pose proof (table_units_tables elements None) as Hunits. rewrite Hone in Hunits.
  destruct (table_units None elements) as [|[t anchor] [|second units]];
    try discriminate Hunits.
  inversion Hunits; subst t.
  cbn [map gather fst snd].
  apply bind_raises, bind_raises.
  now apply (_semantic_ingest_table_empty_array table anchor llm html).
Qed.

End SemanticTablesFacts.

(** A Title, a Table and a paragraph: the paragraph comes before everything
    the table expands to. *)
Lemma semantic_tables_appends_expansions_witness :
  let table := table_of "t" "<table>rows</table>" in
  let elements := [title_of "Rooms"; table; narrative_of "After"] in
  exists expansions,
    [title_of "Rooms"; narrative_of "After";
     narrative_of_table table "rows";
     narrative_of_table table
       ("Rooms" +++ PyStr.LF +++ PyStr.LF +++ "List Item 1: Row one");
     narrative_of_table table
       ("Rooms" +++ PyStr.LF +++ PyStr.LF +++ "List Item 2: Row two");
     narrative_of_table table ("Rooms" +++ PyStr.LF +++ "The table has two rows.")]
    = filter (fun element => negb (isinstance element Table)) elements
        ++ List.concat expansions
    /\ Forall2 (@SemanticTables.expands_to Sample.runtime Sample.llm)
               (SemanticTables.table_units None elements) expansions.
Proof.
  apply (proj2 (@semantic_tables_appends_expansions Sample.runtime
                  [title_of "Rooms"; table_of "t" "<table>rows</table>";
                   narrative_of "After"]
                  Sample.llm)
               initial_world _ initial_world).
  reflexivity.
Defined.

(** C5, as stated, fails: 1500 opening brackets are no valid JSON, yet
    [json.loads] raises [RecursionError] on them, which the handler for
    [JSONDecodeError] does not take.  The exception leaves the unit extraction
    and the ingestion of the table: no raw rendering, no summary, and nothing
    logged. *)
Lemma unit_extraction_recursion_error_counterexample :
  let table := table_of "t" "<table>deep</table>" in
  @json_loads Sample.runtime (@SemanticTables.units_response Sample.runtime table Sample.llm)
  = Raise RecursionError
  /\ @SemanticTables._semantic_parse_table Sample.runtime table None Sample.llm
       initial_world
     = (Raise RecursionError, initial_world)
  /\ @SemanticTables._semantic_ingest_table Sample.runtime table None Sample.llm
       initial_world
     = (Raise RecursionError, initial_world).
Proof. repeat split; vm_compute; reflexivity. Qed.

(** The LLM answers a table with prose: no unit, one raw rendering, one
    summary, one logged failure. *)
Lemma unit_extraction_failure_is_absorbed_witness :
  let table := table_of "t" "<table>prose</table>" in
  let anchor := Some (title_of "Rooms") in
  @SemanticTables._semantic_ingest_table Sample.runtime table anchor Sample.llm
    initial_world
  = (Return [narrative_of_table table "prose";
             narrative_of_table table ("Rooms" +++ PyStr.LF +++ "The table has two rows.")],
     mkWorld 0 []
       ["Failed to parse a table! Got invalid reply: "
          +++ "Sorry, I cannot read this table." +++ PyStr.LF
          +++ "Traceback (most recent call last): ..."]).
Proof.
  apply (@unit_extraction_failure_is_absorbed Sample.runtime
           (table_of "t" "<table>prose</table>") (Some (title_of "Rooms")) Sample.llm
           "<table>prose</table>" initial_world).
  - reflexivity.
  - left. reflexivity.
Defined.

(* ================================================================== *)
(** * The Pipeline Orchestrator *)
(* ================================================================== *)

Section ParserFacts.
Import Parser.
Context `{PyRuntime}.

(** ** What the earlier stages do to a table *)

Lemma parse_element_kind (element : Element) :
  kind (MetadataParser.parse_element element) = kind element.
Proof.
  unfold MetadataParser.parse_element, MetadataParser._parse_element_urls.
  destruct (MetadataParser.has_links element); [|reflexivity].
  simpl. now destruct (fold_left _ _ _).
Qed.

Lemma parse_element_text_as_html (element : Element) :
  text_as_html (metadata (MetadataParser.parse_element element))
  = text_as_html (metadata element).
Proof.
  unfold MetadataParser.parse_element, MetadataParser._parse_element_urls.
  destruct (MetadataParser.has_links element); [|reflexivity].
  simpl. now destruct (fold_left _ _ _).
Qed.

(** The prompt holds the HTML rendering only, so the answer is the same. *)
Lemma parse_element_units_response (element : Element) (llm : LLM) :
  SemanticTables.units_response (MetadataParser.parse_element element) llm
  = SemanticTables.units_response element llm.
Proof.
  unfold SemanticTables.units_response, SemanticTables.user_message.
  now rewrite parse_element_text_as_html.
Qed.

Lemma loop_body_appends (st : ListParser.LoopState) (x : Element) :
  isinstance x ListItem = false ->
  exists flushed,
    ListParser.nodes (ListParser.loop_body st x) = ListParser.nodes st ++ x :: flushed.
Proof.
  intros Hli. unfold ListParser.loop_body. rewrite Hli.
  destruct (isinstance_opt (ListParser.last_node st) ListItem); cbn [ListParser.nodes].
  - eexists. now rewrite <- app_assoc.
  - now exists [].
Qed.

(** [list_parser] keeps every element that is neither a list item nor a page
    break. *)
Lemma list_parser_keeps (elements : list Element) (x : Element) :
  In x elements ->
  isinstance x ListItem = false ->
  isinstance x PageBreak = false ->
  In x (ListParser.list_parser elements).
Proof.
  intros Hin Hli Hpb. unfold ListParser.list_parser.
  assert (Hkept : In x (ListParser._iterate_without_page_breaks elements))
    by (apply filter_In; split; [exact Hin | now rewrite Hpb]).
  apply in_split in Hkept. destruct Hkept as (before & after & ->).
  rewrite fold_left_app. cbn [fold_left].
  destruct (loop_nodes_grow after
              (ListParser.loop_body
                 (fold_left ListParser.loop_body before ListParser.loop_init) x))
    as [more ->].
  apply in_or_app. left.
  destruct (loop_body_appends
              (fold_left ListParser.loop_body before ListParser.loop_init) x Hli)
    as [flushed ->].
  apply in_or_app. right. now left.
Qed.

(** A table of the partition reaches the table stage, with its rendering. *)
Lemma table_reaches_table_stage
  (elements : list Element) (node_parser : SemanticSplitterNodeParser) (table : Element) :
  In table elements ->
  isinstance table Table = true ->
  In (MetadataParser.parse_element table)
     (ListParser.list_parser
        (SemanticSplitter.semantic_splitter
           (MetadataParser.metadata_parser elements) node_parser))
  /\ isinstance (MetadataParser.parse_element table) Table = true.
Proof.
  intros Hin Htable.
  assert (Hkind : isinstance (MetadataParser.parse_element table) Table = true)
    by (unfold isinstance in *; now rewrite parse_element_kind).
  split; [|exact Hkind].
  apply list_parser_keeps.
  - rewrite semantic_splitter_is_identity.
    unfold MetadataParser.metadata_parser. now apply in_map.
  - apply (isinstance_exclusive _ Table ListItem Hkind). discriminate.
  - apply (isinstance_exclusive _ Table PageBreak Hkind). discriminate.
Qed.

(** ** The empty document *)

(** C8. When the partitioner returns no element, [aparse] returns the empty
    list with a stats record whose [element_parse_time] is an integer, the
    difference of the two clock readings around the partitioning, and whose
    four other times are [None].  The clock was read twice, no stage was
    entered and nothing was logged. *)
Theorem aparse_empty_partition
  (self : SemanticDocumentParser) (document : BytesIO) (w : World) :
  partition document = [] ->
  aparse self document w
  = (Return ([], mkStats (Some (time_time (S (clock_reads w))
                                - time_time (clock_reads w))%Z)
                         None None None None),
     mkWorld (S (S (clock_reads w))) (stages_entered w) (error_log w)).
Proof.
  intros Hempty. unfold aparse, bind, now. cbn [clock_reads stages_entered error_log].
  rewrite Hempty. reflexivity.
Qed.

(** ** The empty array *)

(** Up to the table stage nothing raises: [aparse] is the table stage run on
    what the three earlier stages hand over, in a later world. *)
Lemma aparse_raises_with_table_stage
  (self : SemanticDocumentParser) (document : BytesIO) (w : World) :
  partition document <> [] ->
  (forall w0, exists e w',
      SemanticTables.semantic_tables
        (ListParser.list_parser
           (SemanticSplitter.semantic_splitter
              (MetadataParser.metadata_parser (partition document)) (node_parser self)))
        (llm_model self) w0 = (Raise e, w')) ->
  exists e w', aparse self document w = (Raise e, w').
Proof.
  intros Hne Hraise. unfold aparse, bind, now, enter_stage.
  cbn [clock_reads stages_entered error_log].
  destruct (partition document) as [|first others] eqn:Hp; [congruence|].
  cbn [List.length Nat.ltb Nat.leb].
  match goal with
  | |- context [SemanticTables.semantic_tables ?els ?llm ?w0] =>
      destruct (Hraise w0) as (e & w' & ->)
  end.
  now exists e, w'.
Qed.


(** As above, when the table stage raises [e] and leaves the world as it
    found it: [aparse] raises [e], and nothing was logged. *)
Lemma aparse_raises_as_table_stage
  (self : SemanticDocumentParser) (document : BytesIO) (w : World) (e : PyExn) :
  partition document <> [] ->
  (forall w0,
      SemanticTables.semantic_tables
        (ListParser.list_parser
           (SemanticSplitter.semantic_splitter
              (MetadataParser.metadata_parser (partition document)) (node_parser self)))
        (llm_model self) w0 = (Raise e, w0)) ->
  exists w', aparse self document w = (Raise e, w') /\ error_log w' = error_log w.
Proof.
  intros Hne Hraise. unfold aparse, bind, now, enter_stage.
  cbn [clock_reads stages_entered error_log].
  destruct (partition document) as [|first others] eqn:Hp; [congruence|].
  cbn [List.length Nat.ltb Nat.leb].
  match goal with
  | |- context [SemanticTables.semantic_tables ?els ?llm ?w0] =>
      rewrite (Hraise w0)
  end.
  eexists. split; reflexivity.
Qed.

(** The tables that leave [list_parser] are those that entered it. *)
Lemma loop_tables (elements : list Element) (st : ListParser.LoopState) :
  filter (fun element => isinstance element Table)
         (ListParser.nodes (fold_left ListParser.loop_body elements st))
  = filter (fun element => isinstance element Table) (ListParser.nodes st)
      ++ filter (fun element => isinstance element Table) elements.
Proof.
  revert st. induction elements as [|x elements IH]; intros st; cbn [fold_left].
  - simpl. now rewrite app_nil_r.
  - rewrite IH. cbn [filter]. unfold ListParser.loop_body.
    destruct (isinstance x ListItem) eqn:Hli; cbn [ListParser.nodes].
    + now rewrite (isinstance_exclusive x ListItem Table Hli) by discriminate.
    + destruct (isinstance_opt (ListParser.last_node st) ListItem);
        cbn [ListParser.nodes]; rewrite !filter_app; cbn [filter];
        rewrite ?_list_group_parser_no_table, ?app_nil_r, <- ?app_assoc;
        destruct (isinstance x Table); reflexivity.
Qed.

Lemma list_parser_tables (elements : list Element) :
  filter (fun element => isinstance element Table) (ListParser.list_parser elements)
  = filter (fun element => isinstance element Table) elements.
Proof.
  unfold ListParser.list_parser. rewrite loop_tables. simpl.
  unfold ListParser._iterate_without_page_breaks.
  induction elements as [|x elements IH]; simpl; [reflexivity|].
  destruct (isinstance x PageBreak) eqn:Hpb; simpl.
  - now rewrite (isinstance_exclusive x PageBreak Table Hpb) by discriminate.
  - destruct (isinstance x Table); now rewrite IH.
Qed.

Lemma metadata_parser_tables (elements : list Element) :
  filter (fun element => isinstance element Table)
         (MetadataParser.metadata_parser elements)
  = map MetadataParser.parse_element
        (filter (fun element => isinstance element Table) elements).
Proof.
  unfold MetadataParser.metadata_parser.
  induction elements as [|x elements IH]; simpl; [reflexivity|].
  unfold isinstance at 1. rewrite parse_element_kind. fold (isinstance x Table).
  destruct (isinstance x Table); simpl; now rewrite IH.
Qed.

(** C10. A table of the partition has an HTML rendering, and the answer to
    its unit-extraction prompt decodes to the empty array.  Then
    [_parse_llm_json_response] raises [IndexError] without entering the
    handler (nothing is logged), the ingestion of the table raises it, the
    table stage raises on every sequence that holds the table, and [aparse]
    raises instead of returning elements.  When the table is the only one of
    the document, what [aparse] raises is the [IndexError]. *)
Theorem empty_array_answer_aborts_aparse
  (self : SemanticDocumentParser) (document : BytesIO)
  (table : Element) (html : string) (w : World) :
  In table (partition document) ->
  isinstance table Table = true ->
  text_as_html (metadata table) = Some html ->
  json_loads (SemanticTables.units_response table (llm_model self)) = Return (JArray []) ->
  SemanticTables._parse_llm_json_response
    (SemanticTables.units_response table (llm_model self)) w
  = (Raise IndexError, w)
  /\ (forall previous_element,
        SemanticTables._semantic_ingest_table table previous_element (llm_model self) w
        = (Raise IndexError, w))
  /\ (forall elements,
        In table elements ->
        exists e w', SemanticTables.semantic_tables elements (llm_model self) w
                     = (Raise e, w'))
  /\ (exists e w', aparse self document w = (Raise e, w'))
  /\ (filter (fun element => isinstance element Table) (partition document) = [table] ->
      exists w', aparse self document w = (Raise IndexError, w')
                 /\ error_log w' = error_log w).
Proof.
  intros Hin Htable Hhtml Hempty.
  assert (Hne : partition document <> [])
    by (intros Hnil; rewrite Hnil in Hin; contradiction).
  assert (Hhtml' : text_as_html (metadata (MetadataParser.parse_element table))
                   = Some html)
    by now rewrite parse_element_text_as_html.
  assert (Hempty' : json_loads (SemanticTables.units_response
                                  (MetadataParser.parse_element table) (llm_model self))
                    = Return (JArray []))
    by now rewrite parse_element_units_response.
  split; [|split; [|split; [|split]]].
  - now apply _parse_llm_json_response_empty_array.
  - intros previous_element.
    now apply (_semantic_ingest_table_empty_array table previous_element _ html).
  - intros elements Hel.
    now apply (semantic_tables_raises_on_empty_array elements _ table html).
  - apply aparse_raises_with_table_stage; [exact Hne|].
    destruct (table_reaches_table_stage (partition document) (node_parser self)
                table Hin Htable) as [Hreach Hkind].
    now apply (semantic_tables_raises_on_empty_array _ _ _ html Hreach Hkind).
  - intros Hone. apply aparse_raises_as_table_stage; [exact Hne|].
    intros w0.
    apply (semantic_tables_one_table_empty_array _ _
             (MetadataParser.parse_element table) html); [|exact Hhtml'|exact Hempty'].
    rewrite list_parser_tables, semantic_splitter_is_identity, metadata_parser_tables.
    now rewrite Hone.
Qed.

End ParserFacts.

(** The empty document: one second between the two readings of the clock. *)
Lemma aparse_empty_partition_witness :
  @Parser.aparse Sample.runtime Sample.parser [] initial_world
  = (Return ([], Parser.mkStats (Some 1%Z) None None None None), mkWorld 2 [] []).
Proof.
  apply (@aparse_empty_partition Sample.runtime Sample.parser [] initial_world).
  reflexivity.
Defined.

(** A document with one table that the LLM answers with the empty array:
    [aparse] raises [IndexError] in the fourth stage. *)
Lemma empty_array_answer_aborts_aparse_witness :
  @Parser.aparse Sample.runtime Sample.parser [Byte.x01] initial_world
  = (Raise IndexError,
     mkWorld 9 [MetadataStage; SplitterStage; ListStage; TableStage] [])
  /\ exists w',
       @Parser.aparse Sample.runtime Sample.parser [Byte.x01] initial_world
       = (Raise IndexError, w')
       /\ error_log w' = error_log initial_world.
Proof.
  split; [reflexivity|].
  apply (@empty_array_answer_aborts_aparse Sample.runtime Sample.parser [Byte.x01]
           (table_of "r" "<table>empty</table>") "<table>empty</table>" initial_world).
  - right. now left.
  - reflexivity.
  - reflexivity.
  - reflexivity.
  - reflexivity.
Defined.

(* ================================================================== *)
(** * More on the Metadata Normalizer *)
(* ================================================================== *)

Section MetadataParserMore.
Import MetadataParser.

Lemma length_take (n : nat) (s : string) :
  String.length (PyStr.take n s) = Nat.min n (String.length s).
Proof.
  revert s. induction n as [|n IH]; intros [|c s]; simpl; try reflexivity.
  now rewrite IH.
Qed.

Lemma length_drop (n : nat) (s : string) :
  String.length (PyStr.drop n s) = String.length s - n.
Proof.
  revert s. induction n as [|n IH]; intros [|c s]; simpl; try reflexivity.
  apply IH.
Qed.

Lemma take_all (n : nat) (s : string) :
  String.length s <= n -> PyStr.take n s = s.
Proof.
  revert s. induction n as [|n IH]; intros [|c s]; simpl; intros Hn;
    try reflexivity; [lia|].
  rewrite IH by lia. reflexivity.
Qed.

Lemma drop_all (n : nat) (s : string) :
  String.length s <= n -> PyStr.drop n s = EmptyString.
Proof.
  revert s. induction n as [|n IH]; intros [|c s]; simpl; intros Hn;
    try reflexivity; [lia|].
  apply IH. lia.
Qed.

(** What the loop body of [metadata_parser] leaves of one element. *)
Lemma parse_element_scrubbed (element : Element) :
  let element' := parse_element element in
  kind element' = kind element
  /\ text_as_html (metadata element') = text_as_html (metadata element)
  /\ parent_id (metadata element') = None
  /\ category_depth (metadata element') = None
  /\ filetype (metadata element') = None
  /\ languages (metadata element') = None
  /\ page_number (metadata element') = None.
Proof.
  unfold parse_element, _parse_element_urls.
  destruct (has_links element); simpl; [|repeat split].
  destruct (fold_left link_body _ _). simpl. repeat split.
Qed.

(** X1. Position by position, [metadata_parser] keeps the class and the HTML
    rendering of every element and sets its parent id, category depth, file
    type, languages and page number to [None].  An element with a non-empty
    list of links gets its three link fields set to [None]; an element whose
    links are [None] or the empty list keeps its text and its three link
    fields as they are (an empty list is not reset to [None]). *)
Theorem metadata_parser_elementwise
  (elements : list Element) (i : nat) (element : Element) :
  nth_error elements i = Some element ->
  exists element',
    nth_error (metadata_parser elements) i = Some element'
    /\ kind element' = kind element
    /\ text_as_html (metadata element') = text_as_html (metadata element)
    /\ parent_id (metadata element') = None
    /\ category_depth (metadata element') = None
    /\ filetype (metadata element') = None
    /\ languages (metadata element') = None
    /\ page_number (metadata element') = None
    /\ (has_links element = true ->
        links (metadata element') = None
        /\ link_texts (metadata element') = None
        /\ link_urls (metadata element') = None)
    /\ (has_links element = false ->
        text element' = text element
        /\ links (metadata element') = links (metadata element)
        /\ link_texts (metadata element') = link_texts (metadata element)
        /\ link_urls (metadata element') = link_urls (metadata element)).
Proof.
  intros Hnth. exists (parse_element element).
  split; [unfold metadata_parser; now apply map_nth_error|].
  destruct (parse_element_scrubbed element) as (Hk & Hh & Hp & Hc & Hf & Hl & Hn).
  repeat (split; [assumption|]).
  unfold parse_element, _parse_element_urls. split; intros Hlinks; rewrite Hlinks.
  - simpl. destruct (fold_left link_body _ _). simpl. repeat split.
  - simpl. repeat split.
Qed.

Lemma metadata_parser_elementwise_witness :
  exists element',
    nth_error (metadata_parser
                 [title_of "Intro";
                  mkElement NarrativeText "Click here now"
                    (mkMetadata (Some [mkLink 6 "here" "http://x"]) (Some ["here"])
                       (Some ["http://x"]) (Some "p1") (Some 1%Z) (Some "text/html")
                       (Some ["eng"]) (Some 3%Z) None)]) 1
    = Some element'
    /\ kind element' = NarrativeText
    /\ parent_id (metadata element') = None
    /\ page_number (metadata element') = None
    /\ links (metadata element') = None
    /\ link_texts (metadata element') = None.
Proof.
  destruct (metadata_parser_elementwise
              [title_of "Intro";
               mkElement NarrativeText "Click here now"
                 (mkMetadata (Some [mkLink 6 "here" "http://x"]) (Some ["here"])
                    (Some ["http://x"]) (Some "p1") (Some 1%Z) (Some "text/html")
                    (Some ["eng"]) (Some 3%Z) None)]
              1
              (mkElement NarrativeText "Click here now"
                 (mkMetadata (Some [mkLink 6 "here" "http://x"]) (Some ["here"])
                    (Some ["http://x"]) (Some "p1") (Some 1%Z) (Some "text/html")
                    (Some ["eng"]) (Some 3%Z) None))
              eq_refl)
    as (element' & Hnth & Hkind & _ & Hparent & _ & _ & _ & Hpage & Hlinks & _).
  exists element'. destruct (Hlinks eq_refl) as (Hl & Hlt & _).
  repeat split; assumption.
Defined.

(** X2. Running [metadata_parser] a second time changes nothing. *)
Theorem metadata_parser_idempotent (elements : list Element) :
  metadata_parser (metadata_parser elements) = metadata_parser elements.
Proof.
  unfold metadata_parser. rewrite map_map. apply map_ext. intros element.
  unfold parse_element at 1.
  assert (Hno : has_links (parse_element element) = false).
  { unfold parse_element, _parse_element_urls, has_links.
    destruct (links (metadata element)) as [[|link rest]|] eqn:Hl; simpl;
      rewrite ?Hl; try reflexivity.
    destruct (fold_left link_body _ _). reflexivity. }
  rewrite Hno. unfold parse_element, _parse_element_urls.
  destruct (has_links element); simpl; [|reflexivity].
  destruct (fold_left link_body _ _). reflexivity.
Qed.

(** One turn of the loop when the rebased start lies at or after the end of
    the text: both slices clamp, and the link is appended. *)
Lemma link_body_past_end (element_text : string) (change_delta : Z) (link : Link) :
  (PyStr.len element_text <= start_index link + change_delta)%Z ->
  fst (link_body (element_text, change_delta) link)
  = element_text +++ link_text link +++ new_text link.
Proof.
  intros Hpast. unfold link_body. cbv beta iota zeta. cbn [fst].
  unfold PyStr.slice_to, PyStr.slice_from, PyStr.slice_bound, PyStr.len in *.
  destruct (Z.ltb_spec (start_index link + change_delta) 0) as [Hneg|_]; [lia|].
  destruct (Z.ltb_spec (start_index link + change_delta
                        + Z.of_nat (String.length (link_text link))) 0) as [Hneg|_];
    [lia|].
  rewrite take_all by lia. rewrite drop_all by lia.
  now rewrite append_empty_r.
Qed.

(** X3. A single link whose start index is at or after the end of the text
    raises nothing: the link text and its note are appended to the text. *)
Theorem _parse_element_urls_link_past_end (element : Element) (link : Link) :
  links (metadata element) = Some [link] ->
  (PyStr.len (text element) <= start_index link)%Z ->
  text (_parse_element_urls element)
  = text element +++ link_text link +++ " (The link URL is " +++ url link +++ ")".
Proof.
  intros Hlinks Hpast. unfold _parse_element_urls. rewrite Hlinks.
  cbn [fold_left].
  pose proof (link_body_past_end (text element) 0 link) as Hbody.
  destruct (link_body (text element, 0%Z) link) as [new_element_text d].
  cbn [fst text] in *. rewrite Hbody by lia. reflexivity.
Qed.

Lemma _parse_element_urls_link_past_end_witness :
  text (_parse_element_urls (linked_text "Docs" [mkLink 40 "here" "http://x"]))
  = "Docshere (The link URL is http://x)".
Proof.
  apply (_parse_element_urls_link_past_end
           (linked_text "Docs" [mkLink 40 "here" "http://x"])
           (mkLink 40 "here" "http://x")).
  - reflexivity.
  - unfold PyStr.len. simpl. lia.
Defined.

(** One turn of the loop for a link that lies inside the original text, of
    length [original]: the text grows by the note, and so does the delta. *)
Lemma link_body_length (element_text : string) (change_delta : Z) (link : Link)
  (original : nat) :
  (0 <= change_delta)%Z ->
  Z.of_nat (String.length element_text) = (Z.of_nat original + change_delta)%Z ->
  (0 <= start_index link)%Z ->
  (start_index link + PyStr.len (link_text link) <= Z.of_nat original)%Z ->
  let st := link_body (element_text, change_delta) link in
  String.length (fst st)
  = String.length element_text + String.length (new_text link)
  /\ snd st = (change_delta + PyStr.len (new_text link))%Z.
Proof.
  intros Hdelta Hlen Hstart Hend. unfold link_body. cbv beta iota zeta.
  cbn [fst snd]. split; [|reflexivity].
  rewrite !length_append.
  unfold PyStr.slice_to, PyStr.slice_from, PyStr.slice_bound, PyStr.len in *.
  destruct (Z.ltb_spec (start_index link + change_delta) 0) as [Hneg|_]; [lia|].
  destruct (Z.ltb_spec (start_index link + change_delta
                        + Z.of_nat (String.length (link_text link))) 0) as [Hneg|_];
    [lia|].
  rewrite length_take, length_drop.
  rewrite (Nat.min_r (String.length element_text)
             (Z.to_nat (start_index link + change_delta))) by lia.
  rewrite (Nat.min_r (String.length element_text)
             (Z.to_nat (start_index link + change_delta
                        + Z.of_nat (String.length (link_text link))))) by lia.
  rewrite Nat.min_l by lia. lia.
Qed.

(** X4. When every link lies inside the original text (from its start index,
    for the length of its text), whatever the order of the links, the
    rewritten text is longer than the original by exactly the lengths of the
    notes. *)
Theorem _parse_element_urls_length (element : Element) (the_links : list Link) :
  links (metadata element) = Some the_links ->
  Forall (fun link =>
            (0 <= start_index link)%Z
            /\ (start_index link + PyStr.len (link_text link)
                <= PyStr.len (text element))%Z)
         the_links ->
  String.length (text (_parse_element_urls element))
  = String.length (text element)
    + list_sum (map (fun link => String.length (new_text link)) the_links).
Proof.
  intros Hlinks Hinside. unfold _parse_element_urls. rewrite Hlinks.
  assert (Hloop : forall (ls : list Link) (cur : string) (delta : Z),
             Forall (fun link =>
                       (0 <= start_index link)%Z
                       /\ (start_index link + PyStr.len (link_text link)
                           <= PyStr.len (text element))%Z) ls ->
             (0 <= delta)%Z ->
             Z.of_nat (String.length cur)
             = (Z.of_nat (String.length (text element)) + delta)%Z ->
             String.length (fst (fold_left link_body ls (cur, delta)))
             = String.length cur
               + list_sum (map (fun link => String.length (new_text link)) ls)).
  { induction ls as [|link ls IH]; intros cur delta Hls Hdelta Hcur.
    - simpl. lia.
    - inversion Hls as [|? ? [Hstart Hend] Hrest]; subst.
      cbn [fold_left map list_sum].
      destruct (link_body_length cur delta link (String.length (text element))
                  Hdelta Hcur Hstart Hend) as [Hlen Hsnd].
      destruct (link_body (cur, delta) link) as [cur' delta'].
      cbn [fst snd] in Hlen, Hsnd. subst delta'.
      rewrite (IH cur' _ Hrest).
      + unfold list_sum. cbn [fold_right]. lia.
      + unfold PyStr.len. lia.
      + rewrite Hlen. unfold PyStr.len. lia. }
  specialize (Hloop the_links (text element) 0%Z Hinside (Z.le_refl 0)).
  destruct (fold_left link_body the_links (text element, 0%Z)) as [new_element_text d].
  cbn [fst text] in *. apply Hloop. lia.
Qed.

(** Two links listed right to left: the second lands inside the rewritten
    text at a shifted place, and the length still grows by the two notes. *)
Lemma _parse_element_urls_length_witness :
  String.length
    (text (_parse_element_urls
             (linked_text "See docs and code."
                          [mkLink 13 "code" "http://c"; mkLink 4 "docs" "http://d"])))
  = 18 + (27 + 27).
Proof.
  apply (_parse_element_urls_length
           (linked_text "See docs and code."
                        [mkLink 13 "code" "http://c"; mkLink 4 "docs" "http://d"])
           [mkLink 13 "code" "http://c"; mkLink 4 "docs" "http://d"]).
  - reflexivity.
  - repeat constructor; unfold PyStr.len; simpl; lia.
Defined.

End MetadataParserMore.

(* ================================================================== *)
(** * More on the Semantic Grouper/Splitter *)
(* ================================================================== *)

Section SemanticSplitterMore.
Import SemanticSplitter.

Lemma _create_element_groups_close (elements : list Element) :
  _create_element_groups elements
  = close_groups (fold_left group_body elements ([], None)).
Proof.
  unfold _create_element_groups, close_groups.
  now destruct (fold_left group_body elements ([], None)) as [gs [g|]].
Qed.

Lemma ungroup_app (a b : list ElementGroup) : ungroup (a ++ b) = ungroup a ++ ungroup b.
Proof. apply flat_map_app. Qed.

(** Once a group is open, every element is kept: a Title opens the next
    group, anything else joins the open one. *)
Lemma group_loop_open (elements : list Element) :
  forall (gs : list ElementGroup) (g : ElementGroup),
    ungroup (close_groups (fold_left group_body elements (gs, Some g)))
    = ungroup (gs ++ [g]) ++ elements.
Proof.
  induction elements as [|element elements IH]; intros gs g; cbn [fold_left].
  - unfold close_groups. simpl. now rewrite app_nil_r.
  - unfold group_body at 2. destruct (isinstance element Title).
    + rewrite IH, !ungroup_app. simpl. now rewrite !app_nil_r, <- !app_assoc.
    + rewrite IH, !ungroup_app. simpl. rewrite !app_nil_r, <- !app_assoc.
      simpl. now rewrite <- app_assoc.
Qed.

Lemma group_loop_closed (elements : list Element) :
  ungroup (close_groups (fold_left group_body elements ([], None)))
  = after_first_title elements.
Proof.
  induction elements as [|element elements IH]; cbn [fold_left]; [reflexivity|].
  unfold group_body at 2. simpl after_first_title.
  destruct (isinstance element Title).
  - rewrite group_loop_open. simpl. reflexivity.
  - exact IH.
Qed.

Lemma group_body_anchored (st : list ElementGroup * option ElementGroup)
  (element : Element) :
  Forall anchored (close_groups st) ->
  Forall anchored (close_groups (group_body st element)).
Proof.
  destruct st as [gs cur]. unfold group_body, close_groups. cbn [fst snd].
  destruct (isinstance element Title) eqn:Htitle; destruct cur as [g|];
    cbn [fst snd]; intros Hst.
  - apply Forall_app. split; [exact Hst|].
    constructor; [|constructor]. split; [exact Htitle | constructor].
  - apply Forall_app. split; [exact Hst|].
    constructor; [|constructor]. split; [exact Htitle | constructor].
  - apply Forall_app in Hst. destruct Hst as [Hgs Hg].
    apply Forall_app. split; [exact Hgs|].
    inversion Hg as [|? ? [Ht Hn] _]; subst.
    constructor; [|constructor]. split; [exact Ht|]. cbn [nodes].
    apply Forall_app. split; [exact Hn|]. now constructor.
  - exact Hst.
Qed.

Lemma _create_element_groups_anchored (elements : list Element) :
  Forall anchored (_create_element_groups elements).
Proof.
  rewrite _create_element_groups_close.
  assert (Hloop : forall els st,
             Forall anchored (close_groups st) ->
             Forall anchored (close_groups (fold_left group_body els st))).
  { induction els as [|element els IH]; intros st Hst; cbn [fold_left].
    - exact Hst.
    - apply IH. now apply group_body_anchored. }
  apply Hloop. constructor.
Qed.

Lemma _create_element_groups_ungroup (elements : list Element) :
  ungroup (_create_element_groups elements) = after_first_title elements
  /\ Forall anchored (_create_element_groups elements).
Proof.
  split.
  - rewrite _create_element_groups_close. apply group_loop_closed.
  - apply _create_element_groups_anchored.
Qed.

(** X5. The groups of [_create_element_groups], laid out again with each
    Title before its nodes, are the input from its first Title on: nothing
    after the first Title is lost, reordered or repeated.  Every group is
    anchored by a Title and holds no Title; two Titles in a row give a group
    without nodes. *)
Theorem _create_element_groups_partitions (elements : list Element) :
  ungroup (_create_element_groups elements) = after_first_title elements
  /\ Forall anchored (_create_element_groups elements).
Proof. exact (_create_element_groups_ungroup elements). Qed.

(** The loop of [_semantic_split_element_group], node by node. *)
Lemma _semantic_split_element_group_eq
  (group : ElementGroup) (node_parser : SemanticSplitterNodeParser) :
  _semantic_split_element_group group node_parser
  = flat_map (fun node =>
                if negb (isinstance node NarrativeText) then [node]
                else _semantic_split_node (title_node group) node node_parser)
             (nodes group).
Proof.
  unfold _semantic_split_element_group.
  assert (Hloop : forall l acc,
             fold_left
               (fun nodes node =>
                  if negb (isinstance node NarrativeText) then nodes ++ [node]
                  else nodes ++ _semantic_split_node (title_node group) node node_parser)
               l acc
             = acc ++ flat_map
                        (fun node =>
                           if negb (isinstance node NarrativeText) then [node]
                           else _semantic_split_node (title_node group) node node_parser)
                        l).
  { induction l as [|node l IH]; intros acc; cbn [fold_left flat_map].
    - now rewrite app_nil_r.
    - rewrite IH. destruct (negb (isinstance node NarrativeText));
        now rewrite <- app_assoc. }
  apply Hloop.
Qed.

Lemma split_nodes_eq (elements : list Element) (node_parser : SemanticSplitterNodeParser) :
  split_nodes elements node_parser
  = flat_map (fun group => _semantic_split_element_group group node_parser)
             (_create_element_groups elements).
Proof.
  unfold split_nodes.
  assert (Hloop : forall l acc,
             fold_left
               (fun nodes group => nodes ++ _semantic_split_element_group group node_parser)
               l acc
             = acc ++ flat_map
                        (fun group => _semantic_split_element_group group node_parser) l).
  { induction l as [|g l IH]; intros acc; cbn [fold_left flat_map].
    - now rewrite app_nil_r.
    - now rewrite IH, <- app_assoc. }
  apply Hloop.
Qed.

Lemma in_after_first_title (elements : list Element) (x : Element) :
  In x (after_first_title elements) -> In x elements.
Proof.
  induction elements as [|element elements IH]; simpl; [tauto|].
  destruct (isinstance element Title); simpl; [tauto|]. intros Hin. right. now apply IH.
Qed.

(** X6. Every element of the sequence that [semantic_splitter] builds is
    either an element of the input that is neither a Title nor a
    NarrativeText, passed on as it is, or a NarrativeText made from a Title
    and a NarrativeText of the input: its text is the Title text, a line
    feed and one of the texts the node parser returned for that
    NarrativeText, and its metadata is that of the NarrativeText.  So no Title
    is in the built sequence. *)
Theorem split_nodes_elements
  (elements : list Element) (node_parser : SemanticSplitterNodeParser) (x : Element) :
  In x (split_nodes elements node_parser) ->
  (In x elements
   /\ isinstance x Title = false /\ isinstance x NarrativeText = false)
  \/ (exists title node sub,
        In title elements /\ isinstance title Title = true
        /\ In node elements /\ isinstance node NarrativeText = true
        /\ In sub (node_parser [text node])
        /\ x = mkElement NarrativeText (text title +++ PyStr.LF +++ sub) (metadata node)).
Proof.
  rewrite split_nodes_eq. intros Hin.
  apply in_flat_map in Hin. destruct Hin as (g & Hg & Hin).
  destruct (_create_element_groups_ungroup elements) as [Hflat Hanch].
  assert (Hsub : forall y, In y (title_node g :: nodes g) -> In y elements).
  { intros y Hy. apply in_after_first_title. rewrite <- Hflat.
    unfold ungroup. apply in_flat_map. now exists g. }
  pose proof (proj1 (Forall_forall _ _) Hanch g Hg) as [Htitle Hnodes].
  rewrite _semantic_split_element_group_eq in Hin.
  apply in_flat_map in Hin. destruct Hin as (node & Hnode & Hin).
  destruct (isinstance node NarrativeText) eqn:Hnt; cbn [negb] in Hin.
  - right. unfold _semantic_split_node in Hin. apply in_map_iff in Hin.
    destruct Hin as (sub & <- & Hsubin).
    exists (title_node g), node, sub.
    repeat split; auto.
    + apply Hsub. now left.
    + apply Hsub. now right.
  - left. destruct Hin as [<- | []]. repeat split; auto.
    + apply Hsub. now right.
    + exact (proj1 (Forall_forall _ _) Hnodes node Hnode).
Qed.

Lemma split_nodes_elements_witness :
  let elements :=
    [narrative_of "Draft 3"; title_of "Scope"; narrative_of "It parses documents."] in
  let x := narrative_of ("Scope" +++ PyStr.LF +++ "It parses documents.") in
  (In x elements
   /\ isinstance x Title = false /\ isinstance x NarrativeText = false)
  \/ (exists title node sub,
        In title elements /\ isinstance title Title = true
        /\ In node elements /\ isinstance node NarrativeText = true
        /\ In sub (whole_text_parser [text node])
        /\ x = mkElement NarrativeText (text title +++ PyStr.LF +++ sub) (metadata node)).
Proof.
  apply (split_nodes_elements
           [narrative_of "Draft 3"; title_of "Scope"; narrative_of "It parses documents."]
           whole_text_parser
           (narrative_of ("Scope" +++ PyStr.LF +++ "It parses documents."))).
  now left.
Defined.


Lemma filter_flat_map {A B : Type} (f : B -> bool) (g : A -> list B) (l : list A) :
  filter f (flat_map g l) = flat_map (fun x => filter f (g x)) l.
Proof.
  induction l as [|x l IH]; simpl; [reflexivity|].
  now rewrite filter_app, IH.
Qed.

(** What is not a NarrativeText passes through a group, in order. *)
Lemma _semantic_split_element_group_others
  (group : ElementGroup) (node_parser : SemanticSplitterNodeParser) :
  filter (fun element => negb (isinstance element NarrativeText))
         (_semantic_split_element_group group node_parser)
  = filter (fun element => negb (isinstance element NarrativeText)) (nodes group).
Proof.
  rewrite _semantic_split_element_group_eq.
  induction (nodes group) as [|node l IH]; cbn [flat_map filter]; [reflexivity|].
  rewrite filter_app, IH.
  destruct (isinstance node NarrativeText) eqn:Hnt; cbn [negb].
  - unfold _semantic_split_node.
    induction (node_parser [text node]) as [|sub subs IHs]; simpl; [reflexivity|].
    exact IHs.
  - simpl. now rewrite Hnt.
Qed.

(** X7. In the sequence that [semantic_splitter] builds, the elements that are
    not NarrativeText are exactly the elements of the input after its first
    Title that are neither NarrativeText nor Title, in their original order
    and number: tables and list items are neither dropped, repeated nor
    moved past each other. *)
Theorem split_nodes_passes_others_in_order
  (elements : list Element) (node_parser : SemanticSplitterNodeParser) :
  filter (fun element => negb (isinstance element NarrativeText))
         (split_nodes elements node_parser)
  = filter (fun element =>
              negb (isinstance element NarrativeText) && negb (isinstance element Title))
           (after_first_title elements).
Proof.
  destruct (_create_element_groups_ungroup elements) as [Hflat Hanch].
  rewrite split_nodes_eq, <- Hflat. unfold ungroup.
  rewrite !filter_flat_map. clear Hflat.
  generalize dependent (_create_element_groups elements). intros groups Hanch.
  induction Hanch as [|g groups [Htitle Hnodes] _ IH]; cbn [flat_map]; [reflexivity|].
  rewrite IH, _semantic_split_element_group_others. f_equal.
  cbn [filter]. rewrite Htitle, andb_false_r.
  clear - Hnodes. induction Hnodes as [|node l Hnode _ IHl]; cbn [filter]; [reflexivity|].
  rewrite Hnode, andb_true_r. now rewrite IHl.
Qed.

End SemanticSplitterMore.

(* ================================================================== *)
(** * More on the List Consolidator *)
(* ================================================================== *)

Section ListParserMore.
Import ListParser.

Lemma list_parser_flushes_closed_run_witness :
  exists rest,
    list_parser
      ([narrative_of "Before"]
         ++ title_of "Intro" :: [list_item_of "A"; list_item_of "B"]
         ++ table_of "t" "<table/>" :: [narrative_of "After"])
    = list_parser ([narrative_of "Before"] ++ [title_of "Intro"])
        ++ table_of "t" "<table/>"
        :: _list_group_parser [list_item_of "A"; list_item_of "B"] (Some (title_of "Intro"))
        ++ rest.
Proof.
  apply (list_parser_flushes_closed_run
           [narrative_of "Before"] [list_item_of "A"; list_item_of "B"]
           [narrative_of "After"] (title_of "Intro") (table_of "t" "<table/>")).
  - now left.
  - discriminate.
  - repeat constructor.
  - reflexivity.
  - reflexivity.
Defined.

Lemma list_parser_final_run_dropped_witness :
  list_parser ([title_of "Intro"; narrative_of "Body"]
                 ++ [list_item_of "A"; list_item_of "B"])
  = list_parser [title_of "Intro"; narrative_of "Body"].
Proof.
  apply (list_parser_final_run_dropped
           [title_of "Intro"; narrative_of "Body"] [list_item_of "A"; list_item_of "B"]).
  repeat constructor.
Defined.

(** The nodes built for a run are NarrativeText. *)
Lemma _list_group_parser_kind (items : list Element) (header : option Element) :
  Forall (fun node => kind node = NarrativeText) (_list_group_parser items header).
Proof.
  rewrite _list_group_parser_eq. constructor; [reflexivity|].
  apply Forall_map, Forall_forall. now intros [idx item] _.
Qed.

Lemma list_parser_output_kinds (elements : list Element) :
  Forall (fun node => isinstance node ListItem = false
                      /\ isinstance node PageBreak = false)
         (list_parser elements).
Proof.
  unfold list_parser.
  assert (Hloop : forall els st,
             Forall (fun element => isinstance element PageBreak = false) els ->
             Forall (fun node => isinstance node ListItem = false
                                 /\ isinstance node PageBreak = false) (nodes st) ->
             Forall (fun node => isinstance node ListItem = false
                                 /\ isinstance node PageBreak = false)
                    (nodes (fold_left loop_body els st))).
  { induction els as [|element els IH]; intros st Hels Hst; cbn [fold_left].
    - exact Hst.
    - inversion Hels as [|? ? Hpb Hrest]; subst. apply (IH _ Hrest).
      unfold loop_body. destruct (isinstance element ListItem) eqn:Hli; [exact Hst|].
      assert (Hgroup : Forall (fun node => isinstance node ListItem = false
                                           /\ isinstance node PageBreak = false)
                              (_list_group_parser (list_group st) (header_node st))).
      { eapply Forall_impl; [|apply _list_group_parser_kind].
        intros node Hk. unfold isinstance. now rewrite Hk. }
      destruct (isinstance_opt (last_node st) ListItem); cbn [nodes];
        repeat (apply Forall_app; split); auto. }
  apply Hloop; [|constructor].
  unfold _iterate_without_page_breaks. apply Forall_forall. intros element Hin.
  apply filter_In in Hin. destruct Hin as [_ Hpb].
  now destruct (isinstance element PageBreak).
Qed.

(** X10. What [list_parser] returns holds no ListItem and no PageBreak,
    whatever the input. *)
Theorem list_parser_no_list_item_no_page_break (elements : list Element) :
  Forall (fun node => isinstance node ListItem = false
                      /\ isinstance node PageBreak = false)
         (list_parser elements).
Proof. exact (list_parser_output_kinds elements). Qed.

(** X11. A PageBreak is invisible to [list_parser]: with or without it the
    output is the same, so a page break inside a run of list items does not
    split the run. *)
Theorem list_parser_ignores_page_break (before after : list Element) (pb : Element) :
  isinstance pb PageBreak = true ->
  list_parser (before ++ pb :: after) = list_parser (before ++ after).
Proof.
  intros Hpb. unfold list_parser.
  rewrite !_iterate_without_page_breaks_app.
  unfold _iterate_without_page_breaks at 2. cbn [filter]. rewrite Hpb. reflexivity.
Qed.

Lemma list_parser_ignores_page_break_witness :
  list_parser ([title_of "Intro"; list_item_of "A"]
                 ++ page_break :: [list_item_of "B"; narrative_of "End"])
  = list_parser ([title_of "Intro"; list_item_of "A"]
                   ++ [list_item_of "B"; narrative_of "End"]).
Proof.
  apply (list_parser_ignores_page_break
           [title_of "Intro"; list_item_of "A"]
           [list_item_of "B"; narrative_of "End"] page_break).
  reflexivity.
Defined.

(** A run met when nothing is pending and the last element, if any, is no
    text: it is flushed without a header. *)
Lemma loop_flushes_run_without_header
  (st : LoopState) (items post : list Element) (x : Element) :
  list_group st = [] ->
  header_node st = None ->
  isinstance_opt (last_node st) NarrativeText = false ->
  isinstance_opt (last_node st) Title = false ->
  items <> [] ->
  Forall (fun element => isinstance element ListItem = true) items ->
  isinstance x ListItem = false ->
  exists rest,
    nodes (fold_left loop_body (items ++ x :: post) st)
    = nodes st ++ x :: _list_group_parser items None ++ rest.
Proof.
  intros Hgroup Hheader Hnt Htitle Hne Hitems Hx.
  destruct items as [|item items]; [congruence|].
  inversion Hitems as [|? ? Hitem Hrun]; subst.
  cbn [app fold_left].
  assert (Hfirst : loop_body st item = mkLoop (nodes st) None [item] (Some item)).
  { unfold loop_body. now rewrite Hitem, Hnt, Htitle, Hheader, Hgroup. }
  rewrite Hfirst, fold_left_app. cbn [fold_left].
  destruct (loop_run_continues items (mkLoop (nodes st) None [item] (Some item))
              Hrun Hitem) as (Hn & Hh & Hg & Hl).
  cbn [nodes header_node list_group] in Hn, Hh, Hg.
  set (st3 := fold_left loop_body items (mkLoop (nodes st) None [item] (Some item))) in *.
  destruct (loop_nodes_grow post (loop_body st3 x)) as [rest Hrest].
  exists rest. rewrite Hrest, (loop_body_closes_run st3 x Hx Hl), Hn, Hh, Hg.
  now rewrite <- app_assoc.
Qed.

(** X12. A run of list items that opens the document, or that follows an
    element that is neither a Title nor a NarrativeText, is flushed without a
    header: its nodes are those [_list_group_parser] builds for [None], and
    they follow the element that closes the run. *)
Theorem list_parser_run_without_header (items post : list Element) (x : Element) :
  items <> [] ->
  Forall (fun element => isinstance element ListItem = true) items ->
  isinstance x ListItem = false ->
  isinstance x PageBreak = false ->
  (exists rest,
      list_parser (items ++ x :: post) = x :: _list_group_parser items None ++ rest)
  /\ (forall (pre : list Element) (p : Element),
        isinstance p Title = false ->
        isinstance p NarrativeText = false ->
        isinstance p ListItem = false ->
        isinstance p PageBreak = false ->
        exists rest,
          list_parser (pre ++ p :: items ++ x :: post)
          = list_parser (pre ++ [p]) ++ x :: _list_group_parser items None ++ rest).
Proof.
  intros Hne Hitems Hx Hxpb. split.
  - unfold list_parser.
    rewrite _iterate_without_page_breaks_app, (list_items_not_page_breaks items Hitems).
    rewrite (_iterate_without_page_breaks_keep x _ Hxpb).
    destruct (loop_flushes_run_without_header loop_init items
                (_iterate_without_page_breaks post) x) as [rest Hrest]; auto.
    exists rest. exact Hrest.
  - intros pre p Hpt Hpn Hpli Hppb. unfold list_parser.
    rewrite !_iterate_without_page_breaks_app.
    rewrite (_iterate_without_page_breaks_keep p _ Hppb).
    rewrite (_iterate_without_page_breaks_keep p _ Hppb).
    rewrite _iterate_without_page_breaks_app, (list_items_not_page_breaks items Hitems).
    rewrite (_iterate_without_page_breaks_keep x _ Hxpb).
    rewrite !fold_left_app. cbn [fold_left _iterate_without_page_breaks filter].
    set (st0 := fold_left loop_body (_iterate_without_page_breaks pre) loop_init).
    assert (Hset1 : settled (loop_body st0 p))
      by (apply settled_loop_body, settled_fold, settled_init).
    assert (Hlast1 : last_node (loop_body st0 p) = Some p).
    { unfold loop_body. rewrite Hpli.
      destruct (isinstance_opt (last_node st0) ListItem); reflexivity. }
    destruct Hset1 as [Hgroup1 Hheader1]; [rewrite Hlast1; exact Hpli|].
    destruct (loop_flushes_run_without_header (loop_body st0 p) items
                (_iterate_without_page_breaks post) x) as [rest Hrest]; auto.
    + rewrite Hlast1. exact Hpn.
    + rewrite Hlast1. exact Hpt.
    + exists rest. exact Hrest.
Qed.

Lemma list_parser_run_without_header_witness :
  exists rest,
    list_parser ([list_item_of "A"; list_item_of "B"] ++ narrative_of "End" :: [])
    = narrative_of "End"
        :: _list_group_parser [list_item_of "A"; list_item_of "B"] None ++ rest.
Proof.
  apply (list_parser_run_without_header
           [list_item_of "A"; list_item_of "B"] [] (narrative_of "End")).
  - discriminate.
  - repeat constructor.
  - reflexivity.
  - reflexivity.
Defined.


Lemma _list_group_parser_other_kind
  (items : list Element) (header : option Element) (k : ElementKind) :
  k <> NarrativeText ->
  filter (fun element => isinstance element k) (_list_group_parser items header) = [].
Proof.
  intros Hk.
  induction (_list_group_parser_kind items header) as [|node l Hnode _ IH];
    cbn [filter]; [reflexivity|].
  unfold isinstance at 1. rewrite Hnode.
  destruct k; cbn [ElementKind_eqb]; try exact IH. congruence.
Qed.

(** X13. For every class other than NarrativeText, ListItem and PageBreak
    (Title, Table and the classes the package does not name), the elements of
    that class in the output of [list_parser] are those of the input, in the
    same order and number. *)
Theorem list_parser_keeps_other_kinds (elements : list Element) (k : ElementKind) :
  k <> NarrativeText -> k <> ListItem -> k <> PageBreak ->
  filter (fun element => isinstance element k) (list_parser elements)
  = filter (fun element => isinstance element k) elements.
Proof.
  intros Hnt Hli Hpb. unfold list_parser.
  assert (Hloop : forall els st,
             filter (fun element => isinstance element k)
                    (nodes (fold_left loop_body els st))
             = filter (fun element => isinstance element k) (nodes st)
                 ++ filter (fun element => isinstance element k) els).
  { induction els as [|x els IH]; intros st; cbn [fold_left].
    - simpl. now rewrite app_nil_r.
    - rewrite IH. cbn [filter]. unfold loop_body.
      destruct (isinstance x ListItem) eqn:Hx; cbn [nodes].
      + rewrite (isinstance_exclusive x ListItem k Hx) by congruence. reflexivity.
      + destruct (isinstance_opt (last_node st) ListItem);
          cbn [nodes]; rewrite !filter_app; cbn [filter];
          rewrite ?(_list_group_parser_other_kind _ _ k Hnt), ?app_nil_r,
                  <- ?app_assoc;
          destruct (isinstance x k); reflexivity. }
  rewrite Hloop. cbn [nodes loop_init filter app].
  unfold _iterate_without_page_breaks.
  induction elements as [|x elements IH]; cbn [filter]; [reflexivity|].
  destruct (isinstance x PageBreak) eqn:Hx; cbn [negb filter].
  - rewrite (isinstance_exclusive x PageBreak k Hx) by congruence. exact IH.
  - destruct (isinstance x k); now rewrite IH.
Qed.

Lemma list_parser_keeps_other_kinds_witness :
  filter (fun element => isinstance element Title)
         (list_parser [title_of "One"; list_item_of "A"; title_of "Two"; page_break;
                       list_item_of "B"])
  = filter (fun element => isinstance element Title)
           [title_of "One"; list_item_of "A"; title_of "Two"; page_break;
            list_item_of "B"].
Proof.
  apply (list_parser_keeps_other_kinds
           [title_of "One"; list_item_of "A"; title_of "Two"; page_break;
            list_item_of "B"] Title); discriminate.
Defined.

Lemma length_enumerate_from {A : Type} (l : list A) (start : nat) :
  List.length (enumerate_from start l) = List.length l.
Proof.
  revert start. induction l as [|x l IH]; intros start; simpl; [reflexivity|].
  now rewrite IH.
Qed.

(** X14. [_list_group_parser] returns one node more than there are list
    items, with or without a header, also for no item at all.  Without a
    header nothing is put before the texts: the aggregate text is the lines
    "- <item text>" joined by line feeds and " There were <N> items.", and the
    text for item i (counted from 1) is "List Item #<i>): <item text>", with
    the metadata of the item. *)
Theorem _list_group_parser_without_header (items : list Element) :
  (forall header, List.length (_list_group_parser items header) = S (List.length items))
  /\ _list_group_parser items None
     = mkElement NarrativeText
         (PyStr.join PyStr.LF (map (fun item => "- " +++ text item) items)
            +++ " There were " +++ PyStr.of_nat (List.length items) +++ " items.")
         empty_metadata
       :: map (fun '(idx, item) =>
                 mkElement NarrativeText
                   ("List Item #" +++ PyStr.of_nat (idx + 1) +++ "): " +++ text item)
                   (metadata item))
              (enumerate items).
Proof.
  split.
  - intros header. rewrite _list_group_parser_eq. cbn [List.length].
    rewrite length_map. unfold enumerate. now rewrite length_enumerate_from.
  - rewrite _list_group_parser_eq. reflexivity.
Qed.

End ListParserMore.

(* ================================================================== *)
(** * More on the Table Semanticizer *)
(* ================================================================== *)

Section SemanticTablesMore.
Import SemanticTables.
Context `{PyRuntime}.

(** X15. When the answer decodes to an array whose first element is a
    string, the unit extraction returns one NarrativeText per element of the
    array, in order and numbered from 1, each with the metadata of the table
    and the text "List Item <i>: <element>" after the anchor text and two
    line feeds (nothing before it without an anchor).  Nothing is logged.
    Only the first element is checked: a later element that is not a string
    is printed as an f-string prints it. *)
Theorem _semantic_parse_table_units
  (element : Element) (previous_element : option Element) (llm : LLM)
  (s : string) (rest : list JSON) (w : World) :
  json_loads (units_response element llm) = Return (JArray (JString s :: rest)) ->
  _semantic_parse_table element previous_element llm w
  = (Return
       (map (fun '(idx, item) =>
               mkElement NarrativeText
                 (match previous_element with
                  | Some p => text p +++ PyStr.LF +++ PyStr.LF
                  | None => EmptyString
                  end
                  +++ "List Item " +++ PyStr.of_nat (idx + 1) +++ ": "
                  +++ match item with JString t => t | other => py_repr other end)
                 (metadata element))
            (enumerate (JString s :: rest))),
     w).
Proof.
  intros Hdecoded.
  rewrite (_semantic_parse_table_after_parse element previous_element llm w w
             (JArray (JString s :: rest)) (JString s :: rest)).
  - reflexivity.
  - unfold _parse_llm_json_response, parse_try. now rewrite Hdecoded.
  - reflexivity.
Qed.

(** X16. An answer that decodes to a JSON object, or to a number, a boolean
    or null, is not absorbed: indexing it raises [KeyError] for an object and
    [TypeError] for the others, the handler for [JSONDecodeError] does not
    apply, nothing is logged, and the exception leaves the ingestion of the
    table. *)
Theorem _parse_llm_json_response_not_a_sequence
  (element : Element) (previous_element : option Element) (llm : LLM)
  (html : string) (decoded : JSON) (w : World) :
  text_as_html (metadata element) = Some html ->
  json_loads (units_response element llm) = Return decoded ->
  match decoded with
  | JObject _ =>
      _parse_llm_json_response (units_response element llm) w = (Raise KeyError, w)
      /\ _semantic_ingest_table element previous_element llm w = (Raise KeyError, w)
  | JNull | JBool _ | JInt _ | JFloat _ =>
      _parse_llm_json_response (units_response element llm) w = (Raise TypeError, w)
      /\ _semantic_ingest_table element previous_element llm w = (Raise TypeError, w)
  | JString _ | JArray _ => True
  end.
Proof.
  intros Hhtml Hdecoded.
  assert (Hingest : forall e,
             _parse_llm_json_response (units_response element llm) w = (Raise e, w) ->
             _semantic_ingest_table element previous_element llm w = (Raise e, w)).
  { intros e Hparse. unfold _semantic_ingest_table. rewrite Hhtml. cbn [fst snd].
    apply bind_raises. unfold _semantic_parse_table.
    fold (units_response element llm). now apply bind_raises. }
  assert (Hparse : forall e,
             getitem0 decoded = Raise e -> e <> JSONDecodeError ->
             _parse_llm_json_response (units_response element llm) w = (Raise e, w)).
  { intros e Hget Hne. unfold _parse_llm_json_response, parse_try.
    rewrite Hdecoded, Hget. destruct e; [congruence | reflexivity ..]. }
  destruct decoded; try exact I;
    (split; [|apply Hingest]; apply Hparse; (reflexivity || discriminate)).
Qed.

(** X17. An answer that decodes to a JSON string that is not empty passes
    the check, because the first character of a string is a string: the unit
    extraction then returns one NarrativeText per character of the string.
    Nothing is logged. *)
Theorem _semantic_parse_table_string_answer
  (element : Element) (previous_element : option Element) (llm : LLM)
  (c : ascii) (s : string) (w : World) :
  json_loads (units_response element llm) = Return (JString (String c s)) ->
  _semantic_parse_table element previous_element llm w
  = (Return
       (map (unit_element element previous_element)
            (enumerate
               (map (fun ch => JString (String ch EmptyString))
                    (c :: list_ascii_of_string s)))),
     w).
Proof.
  intros Hdecoded.
  apply (_semantic_parse_table_after_parse element previous_element llm w w
           (JString (String c s))).
  - unfold _parse_llm_json_response, parse_try. now rewrite Hdecoded.
  - reflexivity.
Qed.

End SemanticTablesMore.

Lemma _semantic_parse_table_units_witness :
  @SemanticTables._semantic_parse_table Sample.runtime (table_of "t" "<table>rows</table>")
    (Some (title_of "Rooms")) Sample.llm initial_world
  = (Return
       [narrative_of_table (table_of "t" "<table>rows</table>")
          ("Rooms" +++ PyStr.LF +++ PyStr.LF +++ "List Item 1: Row one");
        narrative_of_table (table_of "t" "<table>rows</table>")
          ("Rooms" +++ PyStr.LF +++ PyStr.LF +++ "List Item 2: Row two")],
     initial_world).
Proof.
  apply (@_semantic_parse_table_units Sample.runtime
           (table_of "t" "<table>rows</table>") (Some (title_of "Rooms")) Sample.llm
           "Row one" [JString "Row two"] initial_world).
  reflexivity.
Defined.

Lemma _parse_llm_json_response_not_a_sequence_witness :
  let runtime :=
    {| json_loads := fun s =>
         if (s =? "42")%string then Return (JInt 42) else Raise JSONDecodeError;
       py_repr := fun _ => "42";
       traceback_format_exc := fun _ => "Traceback";
       re_sub_tags := fun s => s;
       textwrap_dedent := fun s => s;
       time_time := Sample.time_time;
       partition := Sample.partition;
       SemanticUnitsTemplate := Sample.units_template;
       SemanticSummaryTemplate := Sample.summary_template |} in
  @SemanticTables._parse_llm_json_response runtime "42" initial_world = (Raise TypeError, initial_world)
  /\ @SemanticTables._semantic_ingest_table runtime (table_of "t" "<table>n</table>") None
       (fun _ => "42") initial_world
     = (Raise TypeError, initial_world).
Proof.
  exact (@_parse_llm_json_response_not_a_sequence
           {| json_loads := fun s =>
         if (s =? "42")%string then Return (JInt 42) else Raise JSONDecodeError;
              py_repr := fun _ => "42";
              traceback_format_exc := fun _ => "Traceback";
              re_sub_tags := fun s => s;
              textwrap_dedent := fun s => s;
              time_time := Sample.time_time;
              partition := Sample.partition;
              SemanticUnitsTemplate := Sample.units_template;
              SemanticSummaryTemplate := Sample.summary_template |}
           (table_of "t" "<table>n</table>") None (fun _ => "42")
           "<table>n</table>" (JInt 42) initial_world eq_refl eq_refl).
Defined.

Lemma _semantic_parse_table_string_answer_witness :
  let runtime :=
    {| json_loads := fun s => Return (JString "ok");
       py_repr := fun _ => "?";
       traceback_format_exc := fun _ => "Traceback";
       re_sub_tags := fun s => s;
       textwrap_dedent := fun s => s;
       time_time := Sample.time_time;
       partition := Sample.partition;
       SemanticUnitsTemplate := Sample.units_template;
       SemanticSummaryTemplate := Sample.summary_template |} in
  @SemanticTables._semantic_parse_table runtime (table_of "t" "<table>n</table>") None
    (fun _ => "irrelevant") initial_world
  = (Return [narrative_of_table (table_of "t" "<table>n</table>") "List Item 1: o";
             narrative_of_table (table_of "t" "<table>n</table>") "List Item 2: k"],
     initial_world).
Proof.
  exact (@_semantic_parse_table_string_answer
           {| json_loads := fun s => Return (JString "ok");
              py_repr := fun _ => "?";
              traceback_format_exc := fun _ => "Traceback";
              re_sub_tags := fun s => s;
              textwrap_dedent := fun s => s;
              time_time := Sample.time_time;
              partition := Sample.partition;
              SemanticUnitsTemplate := Sample.units_template;
              SemanticSummaryTemplate := Sample.summary_template |}
           (table_of "t" "<table>n</table>") None (fun _ => "irrelevant")
           "o"%char "k" initial_world eq_refl).
Defined.

Section SemanticTablesStage.
Import SemanticTables.
Context `{PyRuntime}.

Lemma filter_not_table (elements : list Element) :
  Forall (fun element => isinstance element Table = false) elements ->
  filter (fun element => negb (isinstance element Table)) elements = elements.
Proof.
  induction 1 as [|x elements Hx _ IH]; cbn [filter]; [reflexivity|].
  now rewrite Hx, IH.
Qed.

(** The stage raises when the ingestion of one of its tables always does. *)
Lemma semantic_tables_raises_with_table
  (elements : list Element) (llm : LLM) (table : Element) :
  In table elements ->
  isinstance table Table = true ->
  (forall anchor w, exists e w',
      _semantic_ingest_table table anchor llm w = (Raise e, w')) ->
  forall w, exists e w', semantic_tables elements llm w = (Raise e, w').
Proof.
  intros Hin Htable Hraises w. rewrite semantic_tables_eq.
  destruct (table_units_In elements table Hin Htable None) as [anchor Hanchor].
  destruct (gather_raises
              (map (fun unit => _semantic_ingest_table (fst unit) (snd unit) llm)
                   (table_units None elements))) with (w := w)
    as (e & w1 & Hraise).
  - apply Exists_exists.
    exists (_semantic_ingest_table table anchor llm). split.
    + apply in_map_iff. now exists (table, anchor).
    + apply Hraises.
  - exists e, w1. now apply bind_raises.
Qed.

(** X18. A table whose metadata has no HTML rendering is not skipped: its
    ingestion raises [TypeError] before anything is logged, and the table
    stage raises on every sequence that holds such a table. *)
Theorem _semantic_ingest_table_without_html (table : Element) (llm : LLM) :
  text_as_html (metadata table) = None ->
  (forall previous_element w,
      _semantic_ingest_table table previous_element llm w = (Raise TypeError, w))
  /\ (forall elements,
        In table elements ->
        isinstance table Table = true ->
        forall w, exists e w', semantic_tables elements llm w = (Raise e, w')).
Proof.
  intros Hnone.
  assert (Hingest : forall previous_element w,
             _semantic_ingest_table table previous_element llm w = (Raise TypeError, w))
    by (intros previous_element w; unfold _semantic_ingest_table; now rewrite Hnone).
  split; [exact Hingest|].
  intros elements Hin Htable.
  apply (semantic_tables_raises_with_table elements llm table Hin Htable).
  intros anchor w. exists TypeError, w. apply Hingest.
Qed.

Lemma semantic_tables_no_table (elements : list Element) (llm : LLM) (w : World) :
  Forall (fun element => isinstance element Table = false) elements ->
  semantic_tables elements llm w = (Return elements, w).
Proof.
  intros Hno. rewrite semantic_tables_eq.
  rewrite (table_units_without_tables elements Hno), (filter_not_table elements Hno).
  cbn [map gather]. unfold bind, ret. now rewrite app_nil_r.
Qed.

(** X19. On a sequence without a Table, the empty one included, the table
    stage returns the sequence as it is and logs nothing. *)
Theorem semantic_tables_without_tables (elements : list Element) (llm : LLM) (w : World) :
  Forall (fun element => isinstance element Table = false) elements ->
  semantic_tables elements llm w = (Return elements, w).
Proof. exact (semantic_tables_no_table elements llm w). Qed.

(** What a returning stage returned (as in the amended C2). *)
Lemma semantic_tables_returns_inv
  (elements : list Element) (llm : LLM) (w w' : World) (out : list Element) :
  semantic_tables elements llm w = (Return out, w') ->
  exists expansions,
    out = filter (fun element => negb (isinstance element Table)) elements
            ++ List.concat expansions
    /\ Forall2 (expands_to llm) (table_units None elements) expansions.
Proof.
  intros Hout. rewrite semantic_tables_eq in Hout.
  apply bind_returns_inv in Hout. destruct Hout as (results & w1 & Hresults & Hout).
  inversion Hout; subst out w1. exists results. split; [reflexivity|].
  apply gather_returns_inv in Hresults. clear Hout.
  remember (table_units None elements) as units eqn:Hunits. clear Hunits.
  revert results Hresults.
  induction units as [|[element previous] units IH]; intros results Hresults;
    inversion Hresults as [|task r tasks rs Htask Hrest]; subst; constructor.
  - destruct Htask as (w1 & w2 & Htask).
    exact (_semantic_ingest_table_returns_inv _ _ _ _ _ _ Htask).
  - now apply IH.
Qed.

(** Everything in an expansion is a NarrativeText. *)
Lemma expands_to_kind
  (llm : LLM) (unit : Element * option Element) (expansion : list Element) :
  expands_to llm unit expansion ->
  Forall (fun node => kind node = NarrativeText) expansion.
Proof.
  intros (html & items & _ & _ & ->). unfold expansion_of.
  constructor; [reflexivity|]. apply Forall_app. split.
  - apply Forall_map, Forall_forall. now intros [idx item] _.
  - constructor; [reflexivity | constructor].
Qed.

(** The output of a returning stage: old elements that are no tables, and
    NarrativeText. *)
Lemma semantic_tables_output
  (elements : list Element) (llm : LLM) (w w' : World) (out : list Element) :
  semantic_tables elements llm w = (Return out, w') ->
  Forall (fun node => (In node elements /\ isinstance node Table = false)
                      \/ kind node = NarrativeText) out.
Proof.
  intros Hout. apply semantic_tables_returns_inv in Hout.
  destruct Hout as (expansions & -> & Hexp).
  apply Forall_app. split.
  - apply Forall_forall. intros node Hin. apply filter_In in Hin.
    destruct Hin as [Hin Hnt]. left. split; [exact Hin|].
    now destruct (isinstance node Table).
  - induction Hexp as [|unit expansion units exps Hone _ IH]; cbn [List.concat].
    + constructor.
    + apply Forall_app. split; [|exact IH].
      eapply Forall_impl; [|exact (expands_to_kind llm unit expansion Hone)].
      intros node Hk. now right.
Qed.

(** X20. Whenever the table stage returns, its output holds no Table: every
    element of the output is an element of the input that is not a Table, or
    a NarrativeText. *)
Theorem semantic_tables_output_has_no_table
  (elements : list Element) (llm : LLM) (w w' : World) (out : list Element) :
  semantic_tables elements llm w = (Return out, w') ->
  Forall (fun node => isinstance node Table = false
                      /\ (In node elements \/ isinstance node NarrativeText = true)) out.
Proof.
  intros Hout. eapply Forall_impl; [|exact (semantic_tables_output _ _ _ _ _ Hout)].
  intros node [[Hin Hnt] | Hk].
  - split; [exact Hnt | now left].
  - unfold isinstance. rewrite Hk. split; [reflexivity | now right].
Qed.

(** X21. On a sequence with one Table the stage is the ingestion of that
    table: it raises what the ingestion raises, and otherwise returns the
    other elements in their order followed by the expansion.  The anchor
    handed to the ingestion is the element right before the table when that
    is a NarrativeText or a Title, and none when it is of another class or
    when the table opens the sequence. *)
Theorem semantic_tables_one_table
  (pre post : list Element) (table : Element) (llm : LLM) (w : World) :
  Forall (fun element => isinstance element Table = false) pre ->
  Forall (fun element => isinstance element Table = false) post ->
  isinstance table Table = true ->
  let anchor :=
    match rev pre with
    | p :: _ => if isinstance p NarrativeText || isinstance p Title then Some p else None
    | [] => None
    end in
  semantic_tables (pre ++ table :: post) llm w
  = match _semantic_ingest_table table anchor llm w with
    | (Return expansion, w') => (Return (pre ++ post ++ expansion), w')
    | (Raise e, w') => (Raise e, w')
    end.
Proof.
  intros Hpre Hpost Htable anchor. rewrite semantic_tables_eq.
  rewrite table_units_app, (table_units_without_tables pre Hpre).
  cbn [app table_units]. rewrite Htable, (table_units_without_tables post Hpost).
  cbn [app map gather fst snd].
  assert (Hanchor : anchor_of (match last_opt pre with
                               | Some y => Some y
                               | None => None
                               end) = anchor).
  { unfold anchor, last_opt, anchor_of. now destruct (rev pre). }
  rewrite Hanchor. unfold bind, ret.
  destruct (_semantic_ingest_table table anchor llm w) as [[expansion|e] w'];
    [|reflexivity].
  rewrite filter_app. cbn [filter]. rewrite Htable. cbn [negb].
  rewrite (filter_not_table pre Hpre), (filter_not_table post Hpost).
  cbn [List.concat]. now rewrite app_nil_r, <- app_assoc.
Qed.

End SemanticTablesStage.

Lemma _semantic_ingest_table_without_html_witness :
  @SemanticTables._semantic_ingest_table Sample.runtime
    (mkElement Table "t" empty_metadata) (Some (title_of "Rooms")) Sample.llm
    initial_world
  = (Raise TypeError, initial_world).
Proof.
  exact (proj1 (@_semantic_ingest_table_without_html Sample.runtime
                  (mkElement Table "t" empty_metadata) Sample.llm eq_refl)
               (Some (title_of "Rooms")) initial_world).
Defined.

Lemma semantic_tables_without_tables_witness :
  @SemanticTables.semantic_tables Sample.runtime
    [title_of "Scope"; narrative_of "It parses documents."] Sample.llm initial_world
  = (Return [title_of "Scope"; narrative_of "It parses documents."], initial_world).
Proof.
  apply (@semantic_tables_without_tables Sample.runtime
           [title_of "Scope"; narrative_of "It parses documents."] Sample.llm
           initial_world).
  repeat constructor.
Defined.

Lemma semantic_tables_output_has_no_table_witness :
  Forall (fun node =>
            isinstance node Table = false
            /\ (In node [title_of "Rooms"; table_of "t" "<table>rows</table>"]
                \/ isinstance node NarrativeText = true))
         [title_of "Rooms";
          narrative_of_table (table_of "t" "<table>rows</table>") "rows";
          narrative_of_table (table_of "t" "<table>rows</table>")
            ("Rooms" +++ PyStr.LF +++ PyStr.LF +++ "List Item 1: Row one");
          narrative_of_table (table_of "t" "<table>rows</table>")
            ("Rooms" +++ PyStr.LF +++ PyStr.LF +++ "List Item 2: Row two");
          narrative_of_table (table_of "t" "<table>rows</table>")
            ("Rooms" +++ PyStr.LF +++ "The table has two rows.")].
Proof.
  apply (@semantic_tables_output_has_no_table Sample.runtime
           [title_of "Rooms"; table_of "t" "<table>rows</table>"] Sample.llm
           initial_world initial_world).
  reflexivity.
Defined.

Lemma semantic_tables_one_table_witness :
  @SemanticTables.semantic_tables Sample.runtime
    ([narrative_of "Before"; title_of "Rooms"]
       ++ table_of "t" "<table>prose</table>" :: [narrative_of "After"])
    Sample.llm initial_world
  = match @SemanticTables._semantic_ingest_table Sample.runtime
            (table_of "t" "<table>prose</table>") (Some (title_of "Rooms")) Sample.llm
            initial_world with
    | (Return expansion, w') =>
        (Return ([narrative_of "Before"; title_of "Rooms"]
                   ++ [narrative_of "After"] ++ expansion), w')
    | (Raise e, w') => (Raise e, w')
    end.
Proof.
  apply (@semantic_tables_one_table Sample.runtime
           [narrative_of "Before"; title_of "Rooms"] [narrative_of "After"]
           (table_of "t" "<table>prose</table>") Sample.llm initial_world).
  - repeat constructor.
  - repeat constructor.
  - reflexivity.
Defined.

(* ================================================================== *)
(** * More on the Pipeline Orchestrator *)
(* ================================================================== *)

Section ParserMore.
Import Parser.
Context `{PyRuntime}.

Lemma keeps_bind {A B : Type} (c : Py A) (k : A -> Py B) :
  keeps_clock_and_stages c ->
  (forall a, keeps_clock_and_stages (k a)) ->
  keeps_clock_and_stages (bind c k).
Proof.
  intros Hc Hk w. unfold bind. specialize (Hc w).
  destruct (c w) as [[a|e] w1]; cbn [snd] in *; [|exact Hc].
  destruct (Hk a w1) as [Hclock Hstages]. destruct Hc as [Hc1 Hc2].
  split; congruence.
Qed.

Lemma keeps_ret {A : Type} (a : A) : keeps_clock_and_stages (ret a).
Proof. intros w. now split. Qed.

Lemma keeps_gather {A : Type} (tasks : list (Py A)) :
  Forall keeps_clock_and_stages tasks -> keeps_clock_and_stages (gather tasks).
Proof.
  induction 1 as [|task tasks Htask _ IH]; cbn [gather].
  - apply keeps_ret.
  - apply keeps_bind; [exact Htask|]. intros r.
    apply keeps_bind; [exact IH|]. intros rs. apply keeps_ret.
Qed.

Lemma keeps__semantic_ingest_table
  (element : Element) (previous_element : option Element) (llm : LLM) :
  keeps_clock_and_stages
    (SemanticTables._semantic_ingest_table element previous_element llm).
Proof.
  unfold SemanticTables._semantic_ingest_table.
  destruct (text_as_html (metadata element)); [|intros w; now split].
  cbn [fst snd]. apply keeps_bind.
  - unfold SemanticTables._semantic_parse_table. apply keeps_bind.
    + unfold SemanticTables._parse_llm_json_response.
      destruct (SemanticTables.parse_try _) as [v|[]]; intros w; now split.
    + intros v. apply keeps_bind; [intros w; now split|].
      intros items. apply keeps_ret.
  - intros units. apply keeps_bind; [apply keeps_ret|].
    intros summary. apply keeps_ret.
Qed.

(** The table stage reads no clock and enters no stage. *)
Lemma keeps_semantic_tables (elements : list Element) (llm : LLM) :
  keeps_clock_and_stages (SemanticTables.semantic_tables elements llm).
Proof.
  intros w. rewrite semantic_tables_eq. revert w.
  apply keeps_bind.
  - apply keeps_gather, Forall_map, Forall_forall. intros unit _.
    apply keeps__semantic_ingest_table.
  - intros results. apply keeps_ret.
Qed.

Lemma no_tables_reach_table_stage
  (elements : list Element) (node_parser : SemanticSplitterNodeParser) :
  Forall (fun element => isinstance element Table = false) elements ->
  Forall (fun element => isinstance element Table = false)
         (ListParser.list_parser
            (SemanticSplitter.semantic_splitter
               (MetadataParser.metadata_parser elements) node_parser)).
Proof.
  intros Hno. rewrite semantic_splitter_is_identity.
  assert (Hfilter : filter (fun element => isinstance element Table)
                           (ListParser.list_parser
                              (MetadataParser.metadata_parser elements)) = []).
  { rewrite list_parser_tables, metadata_parser_tables.
    replace (filter (fun element => isinstance element Table) elements) with (@nil Element);
      [reflexivity|].
    symmetry. induction Hno as [|x l Hx _ IH]; cbn [filter]; [reflexivity|].
    now rewrite Hx. }
  apply Forall_forall. intros x Hin.
  destruct (isinstance x Table) eqn:Hx; [|reflexivity].
  assert (Hbad : In x (filter (fun element => isinstance element Table)
                              (ListParser.list_parser
                                 (MetadataParser.metadata_parser elements))))
    by (apply filter_In; now split).
  rewrite Hfilter in Hbad. contradiction.
Qed.

(** X22. For a document whose partition is not empty and holds no Table,
    [aparse] returns what [list_parser] makes of the elements after
    [metadata_parser], whatever the LLM and the node parser are, and all
    five times are present, each the difference of the two clock readings
    around its stage.  The clock is
    read ten times, the four stages are entered in pipeline order, and
    nothing is logged. *)
Theorem aparse_without_tables
  (self : SemanticDocumentParser) (document : BytesIO) (w : World) :
  partition document <> [] ->
  Forall (fun element => isinstance element Table = false) (partition document) ->
  let t := fun n => time_time (n + clock_reads w) in
  aparse self document w
  = (Return (ListParser.list_parser
               (MetadataParser.metadata_parser (partition document)),
             mkStats (Some (t 1%nat - t 0%nat)%Z) (Some (t 3%nat - t 2%nat)%Z)
                     (Some (t 5%nat - t 4%nat)%Z) (Some (t 7%nat - t 6%nat)%Z)
                     (Some (t 9%nat - t 8%nat)%Z)),
     mkWorld (10 + clock_reads w)
             (stages_entered w ++ [MetadataStage; SplitterStage; ListStage; TableStage])
             (error_log w)).
Proof.
  intros Hne Hno t.
  pose proof (no_tables_reach_table_stage (partition document) (node_parser self) Hno)
    as Hreach.
  unfold aparse, bind, now, enter_stage.
  cbn [clock_reads stages_entered error_log].
  destruct (partition document) as [|first others] eqn:Hp; [congruence|].
  cbn [List.length Nat.ltb Nat.leb].
  rewrite (semantic_tables_no_table _ _ _ Hreach).
  cbn [clock_reads stages_entered error_log]. unfold ret.
  rewrite semantic_splitter_is_identity, <- !app_assoc. reflexivity.
Qed.

(** X23. Whenever [aparse] returns, one of two things happened.  Either the
    partition was empty: no element is returned, only [element_parse_time] is
    present, the clock was read twice and no stage was entered.  Or the
    partition was not empty: all five times are present, the clock was read
    ten times, the four stages were entered in pipeline order, and the
    elements returned are what the table stage returned for the output of
    [list_parser] on the elements after [metadata_parser]; the sequence the
    splitter built plays no part in them. *)
Theorem aparse_returns_inv
  (self : SemanticDocumentParser) (document : BytesIO) (w w' : World)
  (out : list Element) (stats : SemanticDocumentParserStats) :
  aparse self document w = (Return (out, stats), w') ->
  (partition document = [] /\ out = []
   /\ element_parse_time stats <> None
   /\ metadata_parse_time stats = None /\ paragraph_parse_time stats = None
   /\ list_parse_time stats = None /\ table_parse_time stats = None
   /\ clock_reads w' = 2 + clock_reads w
   /\ stages_entered w' = stages_entered w)
  \/ (partition document <> []
      /\ element_parse_time stats <> None
      /\ metadata_parse_time stats <> None /\ paragraph_parse_time stats <> None
      /\ list_parse_time stats <> None /\ table_parse_time stats <> None
      /\ clock_reads w' = 10 + clock_reads w
      /\ stages_entered w'
         = stages_entered w ++ [MetadataStage; SplitterStage; ListStage; TableStage]
      /\ exists w0 w1,
          SemanticTables.semantic_tables
            (ListParser.list_parser
               (MetadataParser.metadata_parser (partition document)))
            (llm_model self) w0
          = (Return out, w1)).
Proof.
  unfold aparse, bind, now, enter_stage.
  cbn [clock_reads stages_entered error_log].
  destruct (partition document) as [|first others] eqn:Hp.
  - cbn [List.length Nat.ltb Nat.leb]. unfold ret. intros Hr.
    inversion Hr; subst. left. cbn. repeat split; congruence.
  - cbn [List.length Nat.ltb Nat.leb]. rewrite semantic_splitter_is_identity.
    match goal with
    | |- context [SemanticTables.semantic_tables ?els ?llm ?w0] =>
        pose proof (keeps_semantic_tables els llm w0) as [Hclock Hstages];
        destruct (SemanticTables.semantic_tables els llm w0) as [[elements|e] w1] eqn:Hts
    end; [|discriminate].
    cbn [snd clock_reads stages_entered error_log] in *. unfold ret. intros Hr.
    inversion Hr; subst. right. cbn.
    repeat split; try congruence.
    + rewrite Hstages, <- !app_assoc. reflexivity.
    + eauto.
Qed.

(** X24. Whatever the document, the elements [aparse] returns hold no Table,
    no ListItem and no PageBreak. *)
Theorem aparse_output_kinds
  (self : SemanticDocumentParser) (document : BytesIO) (w w' : World)
  (out : list Element) (stats : SemanticDocumentParserStats) :
  aparse self document w = (Return (out, stats), w') ->
  Forall (fun node => isinstance node Table = false
                      /\ isinstance node ListItem = false
                      /\ isinstance node PageBreak = false) out.
Proof.
  intros Hr. assert (Hcases := Hr). revert Hcases.
  unfold aparse, bind, now, enter_stage.
  cbn [clock_reads stages_entered error_log].
  destruct (partition document) as [|first others] eqn:Hp.
  - cbn [List.length Nat.ltb Nat.leb]. unfold ret. intros Hc.
    inversion Hc; subst. constructor.
  - cbn [List.length Nat.ltb Nat.leb]. rewrite semantic_splitter_is_identity.
    match goal with
    | |- context [SemanticTables.semantic_tables ?els ?llm ?w0] =>
        destruct (SemanticTables.semantic_tables els llm w0) as [[elements|e] w1] eqn:Hts
    end; [|discriminate].
    unfold ret. intros Hc. inversion Hc; subst.
    eapply Forall_impl; [|exact (semantic_tables_output _ _ _ _ _ Hts)].
    intros node [[Hin Hnt] | Hk].
    + pose proof (proj1 (Forall_forall _ _)
                    (list_parser_output_kinds
                       (MetadataParser.metadata_parser (first :: others))) node Hin)
        as [Hli Hpb].
      auto.
    + unfold isinstance. now rewrite Hk.
Qed.

End ParserMore.

Lemma aparse_without_tables_witness :
  @Parser.aparse Sample.runtime Sample.parser [Byte.x02] initial_world
  = (Return ([title_of "Scope"; narrative_of "It parses documents."],
             Parser.mkStats (Some 1%Z) (Some 1%Z) (Some 1%Z) (Some 1%Z) (Some 1%Z)),
     mkWorld 10 [MetadataStage; SplitterStage; ListStage; TableStage] []).
Proof.
  apply (@aparse_without_tables Sample.runtime Sample.parser [Byte.x02] initial_world).
  - discriminate.
  - repeat constructor.
Defined.

Lemma aparse_returns_inv_witness :
  let out := [title_of "Scope"; narrative_of "It parses documents."] in
  let stats := Parser.mkStats (Some 1%Z) (Some 1%Z) (Some 1%Z) (Some 1%Z) (Some 1%Z) in
  let w' := mkWorld 10 [MetadataStage; SplitterStage; ListStage; TableStage] [] in
  (Sample.partition [Byte.x02] = [] /\ out = []
   /\ Parser.element_parse_time stats <> None
   /\ Parser.metadata_parse_time stats = None
   /\ Parser.paragraph_parse_time stats = None
   /\ Parser.list_parse_time stats = None /\ Parser.table_parse_time stats = None
   /\ clock_reads w' = 2 + clock_reads initial_world
   /\ stages_entered w' = stages_entered initial_world)
  \/ (Sample.partition [Byte.x02] <> []
      /\ Parser.element_parse_time stats <> None
      /\ Parser.metadata_parse_time stats <> None
      /\ Parser.paragraph_parse_time stats <> None
      /\ Parser.list_parse_time stats <> None /\ Parser.table_parse_time stats <> None
      /\ clock_reads w' = 10 + clock_reads initial_world
      /\ stages_entered w'
         = stages_entered initial_world
             ++ [MetadataStage; SplitterStage; ListStage; TableStage]
      /\ exists w0 w1,
          @SemanticTables.semantic_tables Sample.runtime
            (ListParser.list_parser
               (MetadataParser.metadata_parser (Sample.partition [Byte.x02])))
            (Parser.llm_model Sample.parser) w0
          = (Return out, w1)).
Proof.
  exact (@aparse_returns_inv Sample.runtime Sample.parser [Byte.x02] initial_world
           (mkWorld 10 [MetadataStage; SplitterStage; ListStage; TableStage] [])
           [title_of "Scope"; narrative_of "It parses documents."]
           (Parser.mkStats (Some 1%Z) (Some 1%Z) (Some 1%Z) (Some 1%Z) (Some 1%Z))
           eq_refl).
Defined.

Lemma aparse_output_kinds_witness :
  Forall (fun node => isinstance node Table = false
                      /\ isinstance node ListItem = false
                      /\ isinstance node PageBreak = false)
         [title_of "Scope"; narrative_of "It parses documents."].
Proof.
  exact (@aparse_output_kinds Sample.runtime Sample.parser [Byte.x02] initial_world
           (mkWorld 10 [MetadataStage; SplitterStage; ListStage; TableStage] [])
           [title_of "Scope"; narrative_of "It parses documents."]
           (Parser.mkStats (Some 1%Z) (Some 1%Z) (Some 1%Z) (Some 1%Z) (Some 1%Z))
           eq_refl).
Defined.

Section SemanticTablesIngest.
Import SemanticTables.
Context `{PyRuntime}.

(** X25. For a table with the HTML rendering [html] whose answer decodes to
    an array of N elements, the first a string, the ingestion returns N + 2
    NarrativeText with the metadata of the table, in this order: the raw
    copy, whose text is the rendering with its tags removed and dedented;
    the N units; and the summary, whose text is the anchor text and ONE line
    feed (nothing without an anchor) followed by the answer of the LLM to the
    summary template and a user message that holds the rendering.  Nothing is
    logged. *)
Theorem _semantic_ingest_table_expansion
  (element : Element) (previous_element : option Element) (llm : LLM)
  (html s : string) (rest : list JSON) (w : World) :
  text_as_html (metadata element) = Some html ->
  json_loads (units_response element llm) = Return (JArray (JString s :: rest)) ->
  exists units,
    _semantic_parse_table element previous_element llm w = (Return units, w)
    /\ List.length units = S (List.length rest)
    /\ _semantic_ingest_table element previous_element llm w
       = (Return
            (mkElement NarrativeText (textwrap_dedent (re_sub_tags html))
                       (metadata element)
               :: units
               ++ [mkElement NarrativeText
                     (match previous_element with
                      | Some p => text p +++ PyStr.LF
                      | None => EmptyString
                      end
                      +++ llm [SemanticSummaryTemplate;
                               mkChatMessage "user" (Some html)])
                     (metadata element)]),
          w).
Proof.
  intros Hhtml Hdecoded.
  assert (Hunits : _semantic_parse_table element previous_element llm w
                   = (Return (map (unit_element element previous_element)
                                  (enumerate (JString s :: rest))), w)).
  { apply (_semantic_parse_table_after_parse element previous_element llm w w
             (JArray (JString s :: rest))).
    - unfold _parse_llm_json_response, parse_try. now rewrite Hdecoded.
    - reflexivity. }
  eexists. split; [exact Hunits|]. split.
  - rewrite length_map. unfold enumerate. now rewrite length_enumerate_from.
  - rewrite (_semantic_ingest_table_after_units element previous_element llm html
               w w _ Hhtml Hunits).
    unfold raw_element, summary_element, user_message. now rewrite Hhtml.
Qed.

End SemanticTablesIngest.

Lemma _semantic_ingest_table_expansion_witness :
  exists units,
    @SemanticTables._semantic_parse_table Sample.runtime
      (table_of "t" "<table>rows</table>") None Sample.llm initial_world
    = (Return units, initial_world)
    /\ List.length units = 2
    /\ @SemanticTables._semantic_ingest_table Sample.runtime
         (table_of "t" "<table>rows</table>") None Sample.llm initial_world
       = (Return
            (narrative_of_table (table_of "t" "<table>rows</table>") "rows"
               :: units
               ++ [narrative_of_table (table_of "t" "<table>rows</table>")
                     "The table has two rows."]),
          initial_world).
Proof.
  exact (@_semantic_ingest_table_expansion Sample.runtime
           (table_of "t" "<table>rows</table>") None Sample.llm
           "<table>rows</table>" "Row one" [JString "Row two"] initial_world
           eq_refl eq_refl).
Defined.

Section SemanticTablesDecoder.
Import SemanticTables.
Context `{PyRuntime}.

(** X26. Only [JSONDecodeError] is absorbed.  When [json.loads] raises any
    other exception on the answer (a [RecursionError] on deep nesting, a
    [ValueError] on an integer literal with too many digits), that exception
    leaves [_parse_llm_json_response], the unit extraction and the ingestion
    of the table, nothing is logged, and the table stage raises on every
    sequence that holds the table. *)
Theorem _parse_llm_json_response_other_exception
  (table : Element) (llm : LLM) (html : string) (e : PyExn) :
  text_as_html (metadata table) = Some html ->
  json_loads (units_response table llm) = Raise e ->
  e <> JSONDecodeError ->
  (forall w, _parse_llm_json_response (units_response table llm) w = (Raise e, w))
  /\ (forall previous_element w,
        _semantic_parse_table table previous_element llm w = (Raise e, w)
        /\ _semantic_ingest_table table previous_element llm w = (Raise e, w))
  /\ (forall elements,
        In table elements ->
        isinstance table Table = true ->
        forall w, exists e' w', semantic_tables elements llm w = (Raise e', w')).
Proof.
  intros Hhtml Hraise Hne.
  assert (Hparse : forall w,
             _parse_llm_json_response (units_response table llm) w = (Raise e, w)).
  { intros w. unfold _parse_llm_json_response, parse_try. rewrite Hraise.
    destruct e; [congruence | reflexivity ..]. }
  assert (Hunits : forall previous_element w,
             _semantic_parse_table table previous_element llm w = (Raise e, w)).
  { intros previous_element w. unfold _semantic_parse_table.
    fold (units_response table llm). apply bind_raises, Hparse. }
  assert (Hingest : forall previous_element w,
             _semantic_ingest_table table previous_element llm w = (Raise e, w)).
  { intros previous_element w. unfold _semantic_ingest_table. rewrite Hhtml.
    cbn [fst snd]. apply bind_raises, Hunits. }
  split; [exact Hparse|]. split; [intros previous_element w; split; auto|].
  intros elements Hin Htable.
  apply (semantic_tables_raises_with_table elements llm table Hin Htable).
  intros anchor w. exists e, w. apply Hingest.
Qed.

End SemanticTablesDecoder.

Lemma _parse_llm_json_response_other_exception_witness :
  @SemanticTables._semantic_ingest_table Sample.runtime
    (table_of "t" "<table>deep</table>") (Some (title_of "Rooms")) Sample.llm
    initial_world
  = (Raise RecursionError, initial_world).
Proof.
  apply (proj2 (proj1 (proj2
           (@_parse_llm_json_response_other_exception Sample.runtime
              (table_of "t" "<table>deep</table>") Sample.llm "<table>deep</table>"
              RecursionError eq_refl ltac:(vm_compute; reflexivity)
              ltac:(discriminate)))
           (Some (title_of "Rooms")) initial_world)).
Defined.
